(** * Mini-RAG retrieval core: MMR selection, rank fusion and reranking

    A shallow embedding of the retrieval pipeline of the repository:
    - [VectorRetriever] (services/vectorRetriever.js): [applyMMR],
      [reciprocalRankFusion], [calculateDiversityScore], [formatResults],
      [retrieveWithMMR], [retrieveWithMMRAndRerank];
    - [RerankingService] (services/rerankingService.js): [validateInputs],
      [prepareDocuments], [callCohereRerank], [processRerankResults],
      [calculateRerankingStats], [rerankChunks];
    - [EmbeddingService.cosineSimilarity] (services/embeddingService.js).

    Modelling conventions.
    - A JavaScript number is modelled at two levels.  In the main
      development it is an exact rational ([Q]): rounding, NaN and the
      infinities are outside of it, [-Infinity] as the start value of a
      running maximum is the [None] of an option, and a quotient by zero is
      [0].  The properties stated there are those that rounding, NaN and
      the infinities leave as they are: ids, ranks, counts, calls, error
      messages, and scores as formulas in the code's own order of
      operations.
    - What does depend on them (how many chunks [applyMMR] returns and which
      ones, the cosine similarity of a zero vector, the fused scores of
      [reciprocalRankFusion]) is stated on IEEE 754 binary64 numbers, the
      primitive floats of the kernel, in [Module Binary64].
    - A thrown [Error] is [Throw message]; a normal return is [Ok value].
    - Objects are records; a field that may be absent is an [option].
    - External collaborators (embedding provider, vector store, reranker) are
      section variables; the reranker may answer differently at each call. *)

From Stdlib Require Import Bool Arith PeanoNat ZArith QArith Qminmax Lia Lqa.
From Stdlib Require Import Ascii String DecimalString List Sorted Permutation.
From Stdlib Require Floats Uint63.
Import ListNotations.

Local Open Scope nat_scope.
Local Open Scope string_scope.
Local Open Scope list_scope.

(** ** Results of fallible code *)

Inductive result (A : Type) : Type :=
| Ok (value : A)
| Throw (message : string).

Arguments Ok {A} value.
Arguments Throw {A} message.

Definition bind {A B : Type} (r : result A) (k : A -> result B) : result B :=
  match r with
  | Ok a => k a
  | Throw m => Throw m
  end.

Notation "'let*' x ':=' r 'in' k" := (bind r (fun x => k))
  (at level 10, x pattern, r at level 100, k at level 200).

(** ** Numbers *)

(** [a > b] on numbers. *)
Definition Qgtb (a b : Q) : bool := negb (Qle_bool a b).

(** [Math.max(a, b)]. *)
Definition Math_max (a b : Q) : Q := if Qgtb b a then b else a.

(** [Math.min(a, b)]. *)
Definition Math_min (a b : Q) : Q := if Qgtb a b then b else a.

(** [Math.abs(a)]. *)
Definition Math_abs (a : Q) : Q := if Qgtb 0 a then (- a)%Q else a.

(** [Math.sqrt] on rationals: the integer square roots of the numerator and
    the denominator of the reduced fraction.  It is exact on the squares of
    rationals and rounds down elsewhere; no theorem below depends on its
    value, only the evaluations at concrete vectors with square norms. *)
Definition Math_sqrt (x : Q) : Q :=
  let r := Qred x in
  Qmake (Z.sqrt (Qnum r)) (Pos.sqrt (Qden r)).

(** ** Strings *)

(** JavaScript white space ([\s]), restricted to the ASCII range. *)
Definition isWhitespace (c : ascii) : bool :=
  let n := nat_of_ascii c in
  ((n =? 32) || (n =? 9) || (n =? 10) || (n =? 11) || (n =? 12) || (n =? 13))%nat.

Fixpoint trimStart (s : string) : string :=
  match s with
  | String c rest => if isWhitespace c then trimStart rest else s
  | EmptyString => EmptyString
  end.

Fixpoint reverseOnto (s acc : string) : string :=
  match s with
  | String c rest => reverseOnto rest (String c acc)
  | EmptyString => acc
  end.

(** [s.trim()] *)
Definition trim (s : string) : string :=
  reverseOnto (trimStart (reverseOnto (trimStart s) EmptyString)) EmptyString.

(** [s.includes(sub)] *)
Definition includes (s sub : string) : bool :=
  match String.index 0 sub s with
  | Some _ => true
  | None => false
  end.

(** [s.split(/\s+/).length]: one more than the number of maximal runs of
    white space. *)
Fixpoint whitespaceRuns (s : string) (inRun : bool) : nat :=
  match s with
  | EmptyString => 0
  | String c rest =>
      if isWhitespace c
      then (if inRun then 0 else 1) + whitespaceRuns rest true
      else whitespaceRuns rest false
  end.

Definition splitWhitespaceLength (s : string) : nat := S (whitespaceRuns s false).

(** A string is truthy when it is present and not empty; an absent string
    field is modelled by the empty string. *)
Definition truthy (s : string) : bool :=
  match s with
  | EmptyString => false
  | String _ _ => true
  end.

(** ** Chunks *)

Definition Embedding : Type := list Q.

(** The [metadata] object of a result, as [formatResults] and
    [processRerankResults] fill it. *)
Record ChunkMetadata : Type := mkChunkMetadata {
  meta_mmrScore : option Q;
  tokenCount : option nat;
  contentLength : option nat;
  meta_retrievalMethod : option string;
  rerankModel : option string;
  meta_rerankScore : option Q;
  originalSimilarity : option Q;
  scoreImprovement : option Q
}.

Definition emptyMetadata : ChunkMetadata :=
  mkChunkMetadata None None None None None None None None.

(** A chunk object at any stage of the pipeline.  The first seven fields
    come from the vector store; the others are added by the stages. *)
Record Chunk : Type := mkChunk {
  id : string;
  content : string;
  source : string;
  title : string;
  section : string;
  position : Z;
  similarity : Q;
  text : string;                      (* read by the reranking service only *)
  embedding : option Embedding;       (* candidate.embedding || null *)
  queryEmbedding : option Embedding;
  mmrScore : option Q;                (* set by the MMR loop *)
  rank : option nat;                  (* set by formatResults *)
  metadata : option ChunkMetadata;
  retrievalMethod : option string;
  rerankScore : option Q;             (* set by processRerankResults *)
  rerankRank : option nat;
  originalRank : option nat;
  rankImprovement : option Z
}.

(** [{ ...c, mmrScore: score }] *)
Definition withMmrScore (c : Chunk) (score : Q) : Chunk :=
  {| id := id c; content := content c; source := source c; title := title c;
     section := section c; position := position c; similarity := similarity c;
     text := text c; embedding := embedding c;
     queryEmbedding := queryEmbedding c; mmrScore := Some score;
     rank := rank c; metadata := metadata c;
     retrievalMethod := retrievalMethod c; rerankScore := rerankScore c;
     rerankRank := rerankRank c; originalRank := originalRank c;
     rankImprovement := rankImprovement c |}.

(** ** The embedding service, as the retriever uses it *)

Record EmbeddingService : Type := {
  generateEmbedding : string -> result Embedding;
  cosineSimilarity : Embedding -> Embedding -> result Q
}.

(** [EmbeddingService.cosineSimilarity] of the source. *)
Fixpoint cosineLoop (e1 e2 : Embedding) (acc : Q * Q * Q) : Q * Q * Q :=
  match e1, e2 with
  | a :: r1, b :: r2 =>
      let '(dotProduct, norm1, norm2) := acc in
      cosineLoop r1 r2
        ((dotProduct + a * b)%Q, (norm1 + a * a)%Q, (norm2 + b * b)%Q)
  | _, _ => acc
  end.

Definition cosineSimilarity_src (embedding1 embedding2 : Embedding) : result Q :=
  if negb (length embedding1 =? length embedding2)%nat then
    Throw "Embeddings must have the same dimensions"
  else
    let '(dotProduct, norm1, norm2) :=
      cosineLoop embedding1 embedding2 (0%Q, 0%Q, 0%Q) in
    Ok (dotProduct / (Math_sqrt norm1 * Math_sqrt norm2))%Q.

(** ** Array and option helpers *)

(** A property with a default: [o !== undefined ? o : d]. *)
Definition orDefault {A : Type} (o : option A) (d : A) : A :=
  match o with
  | Some a => a
  | None => d
  end.

(** [arr.splice(i, 1)]: the array without the element at index [i]. *)
Definition splice1 {A : Type} (i : nat) (arr : list A) : list A :=
  firstn i arr ++ skipn (S i) arr.

Definition sumQ (xs : list Q) : Q := fold_left Qplus xs 0%Q.

Definition lengthQ {A : Type} (xs : list A) : Q := inject_Z (Z.of_nat (length xs)).

(** [Math.max(...xs)] and [Math.min(...xs)]; [None] for no argument. *)
Definition maxOf (xs : list Q) : option Q :=
  match xs with
  | [] => None
  | x :: rest => Some (fold_left Math_max rest x)
  end.

Definition minOf (xs : list Q) : option Q :=
  match xs with
  | [] => None
  | x :: rest => Some (fold_left Math_min rest x)
  end.

(** [arr.sort((a, b) => key(b) - key(a))]: a stable sort, larger keys first.
    Each element goes before the first one that is not strictly larger. *)
Section SortDesc.

Context {A : Type}.
Variable key : A -> Q.

Fixpoint insertDesc (x : A) (sorted : list A) : list A :=
  match sorted with
  | [] => [x]
  | y :: rest =>
      if Qgtb (key y) (key x) then y :: insertDesc x rest
      else x :: y :: rest
  end.

Definition sortDescBy (arr : list A) : list A := fold_right insertDesc [] arr.

End SortDesc.

Section VectorRetriever.

Variable embeddingService : EmbeddingService.

(** *** applyMMR *)

(** [remaining.reduce((best, current) =>
       current.similarity > best.similarity ? current : best)]
    carried with the index of [best]: the strict comparison keeps the
    earliest of equally similar candidates, and that is also the index
    [remaining.indexOf(best)] finds. *)
Fixpoint reduceLoop (arr : list Chunk) (index : nat) (best : nat * Chunk)
  : nat * Chunk :=
  match arr with
  | [] => best
  | current :: rest =>
      reduceLoop rest (S index)
        (if Qgtb (similarity current) (similarity (snd best))
         then (index, current) else best)
  end.

Definition reduceMostRelevant (remaining : list Chunk) : result (nat * Chunk) :=
  match remaining with
  | [] => Throw "Reduce of empty array with no initial value"
  | first :: rest => Ok (reduceLoop rest 1 (0, first))
  end.

(** The inner loop [for (const selectedDoc of selected)]: the running
    [maxSimilarityToSelected]. *)
Fixpoint maxSimilarityLoop (candidate : Chunk) (selected : list Chunk)
    (maxSimilarityToSelected : Q) : result Q :=
  match selected with
  | [] => Ok maxSimilarityToSelected
  | selectedDoc :: rest =>
      match embedding candidate, embedding selectedDoc with
      | Some ce, Some se =>
          let* sim := cosineSimilarity embeddingService ce se in
          maxSimilarityLoop candidate rest (Math_max maxSimilarityToSelected sim)
      | _, _ => maxSimilarityLoop candidate rest maxSimilarityToSelected
      end
  end.

(** [lambda * relevanceScore - (1 - lambda) * maxSimilarityToSelected] *)
Definition mmrScoreOf (lambda : Q) (selected : list Chunk) (candidate : Chunk)
  : result Q :=
  let relevanceScore := similarity candidate in
  let* maxSimilarityToSelected := maxSimilarityLoop candidate selected 0%Q in
  Ok (lambda * relevanceScore - (1 - lambda) * maxSimilarityToSelected)%Q.

(** The loop [for (const candidate of remaining)].  [best] is
    [(index, bestCandidate, bestScore)]; [None] stands for
    [bestCandidate = null, bestScore = -Infinity], below every score. *)
Fixpoint bestLoop (lambda : Q) (selected remaining : list Chunk) (index : nat)
    (best : option (nat * Chunk * Q)) : result (option (nat * Chunk * Q)) :=
  match remaining with
  | [] => Ok best
  | candidate :: rest =>
      let* score := mmrScoreOf lambda selected candidate in
      let better :=
        match best with
        | None => true
        | Some (_, _, bestScore) => Qgtb score bestScore
        end in
      bestLoop lambda selected rest (S index)
        (if better then Some (index, candidate, score) else best)
  end.

(** [while (selected.length < finalK && remaining.length > 0)].  The first
    argument is [finalK - selected.length], the number of picks the guard
    still allows; every iteration that does not [break] uses one. *)
Fixpoint mmrLoop (picksLeft : nat) (lambda : Q) (selected remaining : list Chunk)
  : result (list Chunk) :=
  match picksLeft with
  | 0 => Ok selected
  | S picksLeft' =>
      match remaining with
      | [] => Ok selected
      | _ :: _ =>
          let* best := bestLoop lambda selected remaining 0 None in
          match best with
          | Some (index, bestCandidate, bestScore) =>
              mmrLoop picksLeft' lambda
                (selected ++ [withMmrScore bestCandidate bestScore])
                (splice1 index remaining)
          | None => Ok selected
          end
      end
  end.

Definition applyMMR (queryEmbedding : Embedding) (candidates : list Chunk)
    (finalK : nat) (lambda : Q) : result (list Chunk) :=
  if (length candidates <=? finalK)%nat then Ok candidates
  else
    let selected := [] in
    let remaining := candidates in
    let* (index, mostRelevant) := reduceMostRelevant remaining in
    let selected := selected ++ [mostRelevant] in
    let remaining := splice1 index remaining in
    mmrLoop (finalK - length selected) lambda selected remaining.

(** *** Statistics of a selection *)

(** [results.reduce((acc, r) => acc + (r.similarity || 0), 0) / results.length] *)
Definition calculateAverageSimilarity (results : list Chunk) : Q :=
  if (length results =? 0)%nat then 0%Q
  else
    let sum := fold_left (fun acc r => (acc + similarity r)%Q) results 0%Q in
    (sum / inject_Z (Z.of_nat (length results)))%Q.

(** The loop on [j] of [calculateDiversityScore], for one [results[i]]. *)
Fixpoint diversityInner (ri : Chunk) (later : list Chunk) (acc : Q * nat)
  : result (Q * nat) :=
  match later with
  | [] => Ok acc
  | rj :: rest =>
      match embedding ri, embedding rj with
      | Some ei, Some ej =>
          let* sim := cosineSimilarity embeddingService ei ej in
          let '(totalSimilarity, comparisons) := acc in
          diversityInner ri rest ((totalSimilarity + sim)%Q, S comparisons)
      | _, _ => diversityInner ri rest acc
      end
  end.

(** The loop on [i]. *)
Fixpoint diversityOuter (results : list Chunk) (acc : Q * nat)
  : result (Q * nat) :=
  match results with
  | [] => Ok acc
  | ri :: later =>
      let* acc' := diversityInner ri later acc in
      diversityOuter later acc'
  end.

Definition calculateDiversityScore (results : list Chunk) : result Q :=
  if (length results <=? 1)%nat then Ok 1%Q
  else
    let* (totalSimilarity, comparisons) := diversityOuter results (0%Q, 0) in
    let avgSimilarity :=
      if (0 <? comparisons)%nat
      then (totalSimilarity / inject_Z (Z.of_nat comparisons))%Q
      else 0%Q in
    Ok (1 - avgSimilarity)%Q.

(** *** formatResults *)

Definition formatResult (includeMetadata : bool) (index : nat) (r : Chunk)
  : Chunk :=
  {| id := id r; content := content r; source := source r; title := title r;
     section := section r; position := position r; similarity := similarity r;
     text := ""; embedding := None; queryEmbedding := None; mmrScore := None;
     rank := Some (index + 1);
     metadata :=
       if includeMetadata then
         Some {| meta_mmrScore := mmrScore r;
                 tokenCount :=
                   Some (if truthy (content r)
                         then splitWhitespaceLength (content r) else 0);
                 contentLength :=
                   Some (if truthy (content r)
                         then String.length (content r) else 0);
                 meta_retrievalMethod :=
                   Some (match retrievalMethod r with
                         | Some m => if truthy m then m else "vector_mmr"
                         | None => "vector_mmr"
                         end);
                 rerankModel := None; meta_rerankScore := None;
                 originalSimilarity := None; scoreImprovement := None |}
       else None;
     retrievalMethod := None; rerankScore := None; rerankRank := None;
     originalRank := None; rankImprovement := None |}.

Fixpoint mapi {A B : Type} (f : nat -> A -> B) (index : nat) (arr : list A)
  : list B :=
  match arr with
  | [] => []
  | x :: rest => f index x :: mapi f (S index) rest
  end.

Definition formatResults (results : list Chunk) (includeMetadata : bool)
  : list Chunk :=
  mapi (formatResult includeMetadata) 0 results.

(** *** Retrieval with MMR *)

(** A row of [search_similar_documents] (its [RETURNS TABLE]): the SQL
    function returns no embedding column. *)
Record Row : Type := mkRow {
  row_id : string;
  row_content : string;
  row_source : string;
  row_title : string;
  row_section : string;
  row_position : Z;
  row_similarity : Q
}.

(** [supabase.rpc('search_similar_documents', ...)]: the vector store.
    [Throw m] is an answer whose [error] has message [m]. *)
Variable search_similar_documents :
  Embedding -> Q -> nat -> option string -> option string -> result (list Row).

(** [{ ...candidate, embedding: candidate.embedding || null, queryEmbedding }] *)
Definition candidateOfRow (queryEmbedding : Embedding) (candidate : Row) : Chunk :=
  {| id := row_id candidate; content := row_content candidate;
     source := row_source candidate; title := row_title candidate;
     section := row_section candidate; position := row_position candidate;
     similarity := row_similarity candidate;
     text := ""; embedding := None; queryEmbedding := Some queryEmbedding;
     mmrScore := None; rank := None; metadata := None;
     retrievalMethod := None; rerankScore := None; rerankRank := None;
     originalRank := None; rankImprovement := None |}.

Definition retrieveTopKCandidates (queryEmbedding : Embedding) (topK : nat)
    (threshold : Q) (source section : option string) : result (list Chunk) :=
  match search_similar_documents queryEmbedding threshold topK source section with
  | Throw message => Throw ("Database query failed: " ++ message)
  | Ok data => Ok (map (candidateOfRow queryEmbedding) data)
  end.

(** The fields of the constructor. *)
Record VectorRetriever : Type := {
  defaultTopK : nat;
  defaultFinalK : nat;
  defaultLambda : Q;
  defaultThreshold : Q
}.

Definition newVectorRetriever : VectorRetriever :=
  {| defaultTopK := 50; defaultFinalK := 10;
     defaultLambda := 7 # 10; defaultThreshold := 3 # 10 |}.

(** The [options] object of the retrieval methods; [None] is an absent
    property, which takes the default of the destructuring. *)
Record RetrievalOptions : Type := mkOptions {
  opt_topK : option nat;
  opt_finalK : option nat;
  opt_rerankTopN : option nat;
  opt_lambda : option Q;
  opt_threshold : option Q;
  opt_source : option string;
  opt_section : option string;
  opt_includeMetadata : option bool;
  opt_useReranking : option bool
}.

Record Parameters : Type := {
  param_topK : nat;
  param_finalK : nat;
  param_rerankTopN : option nat;
  param_lambda : Q;
  param_threshold : Q
}.

Record MMRMetadata : Type := {
  candidatesFound : nat;
  finalResults : nat;
  mmrApplied : bool;
  parameters : Parameters;
  avgSimilarity : option Q;
  diversityScore : option Q
}.

Record MMRResult : Type := {
  mmr_query : string;
  mmr_results : list Chunk;
  mmr_metadata : MMRMetadata
}.

(** [try { ... } catch (error) { throw new Error(prefix + error.message) }] *)
Definition rethrow {A : Type} (prefix : string) (r : result A) : result A :=
  match r with
  | Ok a => Ok a
  | Throw message => Throw (prefix ++ message)
  end.

Definition retrieveWithMMR (this : VectorRetriever) (query : string)
    (options : RetrievalOptions) : result MMRResult :=
  let topK := orDefault (opt_topK options) (defaultTopK this) in
  let finalK := orDefault (opt_finalK options) (defaultFinalK this) in
  let lambda := orDefault (opt_lambda options) (defaultLambda this) in
  let threshold := orDefault (opt_threshold options) (defaultThreshold this) in
  let source := opt_source options in
  let section := opt_section options in
  let includeMetadata := orDefault (opt_includeMetadata options) true in
  let parameters :=
    {| param_topK := topK; param_finalK := finalK; param_rerankTopN := None;
       param_lambda := lambda; param_threshold := threshold |} in
  rethrow "Vector retrieval failed: "
    (let* queryEmbedding := generateEmbedding embeddingService query in
     let* candidates :=
       retrieveTopKCandidates queryEmbedding topK threshold source section in
     if (length candidates =? 0)%nat then
       Ok {| mmr_query := query; mmr_results := [];
             mmr_metadata :=
               {| candidatesFound := 0; finalResults := 0; mmrApplied := false;
                  parameters := parameters;
                  avgSimilarity := None; diversityScore := None |} |}
     else
       let* mmrResults := applyMMR queryEmbedding candidates finalK lambda in
       let formattedResults := formatResults mmrResults includeMetadata in
       let* diversity := calculateDiversityScore mmrResults in
       Ok {| mmr_query := query; mmr_results := formattedResults;
             mmr_metadata :=
               {| candidatesFound := length candidates;
                  finalResults := length mmrResults; mmrApplied := true;
                  parameters := parameters;
                  avgSimilarity := Some (calculateAverageSimilarity mmrResults);
                  diversityScore := Some diversity |} |}).

End VectorRetriever.

(** ** reciprocalRankFusion *)

Section ReciprocalRankFusion.

(** The fusion reads only [result.id]; the rows of the two lists are objects
    of any shape [A] with an id. *)
Context {A : Type}.
Variable getId : A -> string.

(** [{ ...result, rrfScore, denseRank, sparseRank }] *)
Record Fused : Type := mkFused {
  fusedResult : A;
  rrfScore : Q;
  denseRank : option nat;
  sparseRank : option nat
}.

(** A JavaScript [Map] keeps its keys in insertion order: an association
    list without duplicate keys. *)
Definition ScoreMap : Type := list (string * Fused).

Fixpoint mapGet (key : string) (m : ScoreMap) : option Fused :=
  match m with
  | [] => None
  | (k, v) :: rest => if String.eqb k key then Some v else mapGet key rest
  end.

(** [m.set(key, value)]: a present key keeps its place and takes the new
    value; a new key goes to the end. *)
Fixpoint mapSet (key : string) (value : Fused) (m : ScoreMap) : ScoreMap :=
  match m with
  | [] => [(key, value)]
  | (k, v) :: rest =>
      if String.eqb k key then (k, value) :: rest
      else (k, v) :: mapSet key value rest
  end.

Definition rankNumber (k : Q) (index : nat) : Q :=
  (k + inject_Z (Z.of_nat index) + 1)%Q.

(** [denseResults.forEach((result, index) => ...)] *)
Fixpoint denseLoop (denseWeight k : Q) (denseResults : list A) (index : nat)
    (scoreMap : ScoreMap) : ScoreMap :=
  match denseResults with
  | [] => scoreMap
  | result :: rest =>
      let rrf := (denseWeight / rankNumber k index)%Q in
      denseLoop denseWeight k rest (S index)
        (mapSet (getId result)
           {| fusedResult := result; rrfScore := rrf;
              denseRank := Some (index + 1); sparseRank := None |}
           scoreMap)
  end.

(** [sparseResults.forEach((result, index) => ...)]; the object found by
    [scoreMap.get] is updated in place. *)
Fixpoint sparseLoop (sparseWeight k : Q) (sparseResults : list A) (index : nat)
    (scoreMap : ScoreMap) : ScoreMap :=
  match sparseResults with
  | [] => scoreMap
  | result :: rest =>
      let rrf := (sparseWeight / rankNumber k index)%Q in
      sparseLoop sparseWeight k rest (S index)
        (match mapGet (getId result) scoreMap with
         | Some existing =>
             mapSet (getId result)
               {| fusedResult := fusedResult existing;
                  rrfScore := (rrfScore existing + rrf)%Q;
                  denseRank := denseRank existing;
                  sparseRank := Some (index + 1) |}
               scoreMap
         | None =>
             mapSet (getId result)
               {| fusedResult := result; rrfScore := rrf;
                  denseRank := None; sparseRank := Some (index + 1) |}
               scoreMap
         end)
  end.

Definition fuseScores (denseResults sparseResults : list A)
    (denseWeight sparseWeight k : Q) : ScoreMap :=
  sparseLoop sparseWeight k sparseResults 0
    (denseLoop denseWeight k denseResults 0 []).

Definition reciprocalRankFusion (denseResults sparseResults : list A)
    (denseWeight sparseWeight k : Q) : list Fused :=
  sortDescBy rrfScore
    (map snd (fuseScores denseResults sparseResults denseWeight sparseWeight k)).

(** The first row of [arr] with id [key], and its index counted from
    [index]. *)
Fixpoint findById (key : string) (arr : list A) (index : nat) : option (nat * A) :=
  match arr with
  | [] => None
  | r :: rest =>
      if String.eqb (getId r) key then Some (index, r)
      else findById key rest (S index)
  end.

(** The fused score in the words of the specification: [denseWeight / (k + r_d)]
    for the rank in the dense list, plus [sparseWeight / (k + r_s)] for the
    rank in the sparse list. *)
Definition specFusedScore (denseResults sparseResults : list A)
    (denseWeight sparseWeight k : Q) (key : string) : option Q :=
  match findById key denseResults 0, findById key sparseResults 0 with
  | Some (i, _), Some (j, _) =>
      Some (denseWeight / rankNumber k i + sparseWeight / rankNumber k j)%Q
  | Some (i, _), None => Some (denseWeight / rankNumber k i)%Q
  | None, Some (j, _) => Some (sparseWeight / rankNumber k j)%Q
  | None, None => None
  end.

(** The ids of a result list are those of distinct chunks. *)
Definition distinctIds (arr : list A) : Prop := NoDup (map getId arr).

(** A well-formed score map: distinct keys, each the id of its value. *)
Definition mapOk (m : ScoreMap) : Prop :=
  NoDup (map fst m) /\
  forall key value, In (key, value) m -> getId (fusedResult value) = key.

End ReciprocalRankFusion.

Arguments Fused A : clear implicits.
Arguments ScoreMap A : clear implicits.

(** The default arguments of [reciprocalRankFusion]. *)
Definition defaultDenseWeight : Q := 7 # 10.
Definition defaultSparseWeight : Q := 3 # 10.
Definition defaultK : Q := 60.

(** ** The world of the asynchronous code *)

(** What the pipeline changes outside itself: how many times the reranker
    has been called, and the delays waited (milliseconds, oldest first). *)
Record World : Type := mkWorld {
  rerankCalls : nat;
  delays : list nat
}.

Definition initialWorld : World := {| rerankCalls := 0; delays := [] |}.

(** An asynchronous computation: it returns or throws, and leaves a world. *)
Definition Async (A : Type) : Type := World -> result A * World.

Definition resolve {A : Type} (a : A) : Async A := fun w => (Ok a, w).

Definition reject {A : Type} (message : string) : Async A :=
  fun w => (Throw message, w).

Definition await {A B : Type} (c : Async A) (k : A -> Async B) : Async B :=
  fun w =>
    match c w with
    | (Ok a, w') => k a w'
    | (Throw m, w') => (Throw m, w')
    end.

(** [try { body } catch (error) { handler(error.message) }] *)
Definition tryCatch {A : Type} (body : Async A) (handler : string -> Async A)
  : Async A :=
  fun w =>
    match body w with
    | (Ok a, w') => (Ok a, w')
    | (Throw m, w') => handler m w'
    end.

Definition ofResult {A : Type} (r : result A) : Async A := fun w => (r, w).

(** [this.delay(ms)] *)
Definition delay (ms : nat) : Async unit :=
  fun w => (Ok tt, {| rerankCalls := rerankCalls w; delays := delays w ++ [ms] |}).

Notation "'do' x '<-' c ';' k" := (await c (fun x => k))
  (at level 10, x pattern, c at level 100, k at level 200).

(** ** RerankingService *)

Record Document : Type := { doc_text : string }.

Record RerankRequest : Type := {
  req_query : string;
  req_documents : list Document;
  req_model : string;
  req_topN : nat;
  req_returnDocuments : bool
}.

Record RerankResultItem : Type := {
  index : nat;                        (* 0-based, into the documents sent *)
  relevanceScore : Q;
  document : option Document
}.

Record RerankResponse : Type := { response_results : list RerankResultItem }.

(** The fields of the constructor. *)
Record RerankingService : Type := {
  model : string;
  defaultTopN : nat;
  maxChunkLength : nat;
  retryAttempts : nat;
  retryDelay : nat
}.

(** [RERANK_CONFIG] of config/cohere.js and the constructor. *)
Definition newRerankingService : RerankingService :=
  {| model := "rerank-english-v3.0"; defaultTopN := 5; maxChunkLength := 4096;
     retryAttempts := 3; retryDelay := 1000 |}.

Record RerankOptions : Type := {
  ro_topN : option nat;
  ro_model : option string;
  ro_includeScores : option bool;
  ro_includeOriginalRank : option bool;
  ro_truncateChunks : option bool
}.

Record CallOptions : Type := {
  call_model : option string;
  call_topN : option nat;
  call_returnDocuments : option bool
}.

Record RerankStats : Type := {
  avgRerankScore : Q;
  maxRerankScore : option Q;          (* None: -Infinity, of no score *)
  minRerankScore : option Q;          (* None: Infinity, of no score *)
  avgOriginalSimilarity : Q;
  avgRankChange : Q;
  significantRankChanges : nat;
  avgScoreImprovement : Q;
  reorderingRate : Q;
  processingTime : Q
}.

Record RerankMetadata : Type := {
  rerank_model : string;
  rerank_topN : nat;
  stats : RerankStats;
  rerank_processingTime : Q
}.

Record RerankOutput : Type := {
  rerank_query : string;
  originalCount : nat;
  rerankedCount : nat;
  rerank_results : list Chunk;
  rerank_metadata : RerankMetadata
}.

Section RerankingService.

(** [cohere.v2.rerank]: the external reranker.  Its answer may depend on how
    many calls came before (first argument). *)
Variable cohere_rerank : nat -> RerankRequest -> result RerankResponse.

Variable this : RerankingService.

Definition callApi (request : RerankRequest) : Async RerankResponse :=
  fun w =>
    (cohere_rerank (rerankCalls w) request,
     {| rerankCalls := S (rerankCalls w); delays := delays w |}).

(** The last [catch] branch of [callCohereRerank]. *)
Definition classifyError (message : string) : string :=
  if includes message "rate limit" then
    "Cohere API rate limit exceeded. Please try again later."
  else if includes message "invalid" then
    "Invalid request to Cohere API. Check query and documents."
  else "Cohere API error: " ++ message.

(** The request object of [cohere.v2.rerank]. *)
Definition rerankRequest (query : string) (documents : list Document)
    (options : CallOptions) : RerankRequest :=
  {| req_query := trim query;
     req_documents := documents;
     req_model :=
       match call_model options with
       | Some m => if truthy m then m else model this
       | None => model this
       end;
     req_topN :=
       match call_topN options with
       | Some (S n) => S n
       | _ => defaultTopN this
       end;
     req_returnDocuments :=
       match call_returnDocuments options with
       | Some false => false
       | _ => true
       end |}.

(** [callCohereRerank(query, documents, options, attempt)].  The first
    argument is [this.retryAttempts - attempt]: the guard
    [attempt < this.retryAttempts] holds exactly when it is not zero. *)
Fixpoint callCohereRerankFrom (attemptsLeft : nat) (query : string)
    (documents : list Document) (options : CallOptions) (attempt : nat)
  : Async RerankResponse :=
  tryCatch
    (callApi (rerankRequest query documents options))
    (fun message =>
       match attemptsLeft with
       | S attemptsLeft' =>
           do _ <- delay (retryDelay this * attempt);
           callCohereRerankFrom attemptsLeft' query documents options (S attempt)
       | 0 => reject (classifyError message)
       end).

Definition callCohereRerank (query : string) (documents : list Document)
    (options : CallOptions) : Async RerankResponse :=
  callCohereRerankFrom (retryAttempts this - 1) query documents options 1.

(** What a run of [callCohereRerank] from a given attempt does: [calls]
    calls to the reranker, all failed but possibly the last, a delay of
    [retryDelay * attempt] after each failed attempt that is retried. *)
Definition retryTrace (budget attempt : nat) (request : RerankRequest)
    (w : World) (run : result RerankResponse * World) : Prop :=
  exists calls,
    1 <= calls <= budget /\
    rerankCalls (snd run) = rerankCalls w + calls /\
    delays (snd run) =
      delays w ++ map (fun a => retryDelay this * a) (seq attempt (calls - 1)) /\
    (forall n, n < calls - 1 ->
       exists m, cohere_rerank (rerankCalls w + n) request = Throw m) /\
    match fst run with
    | Ok response =>
        cohere_rerank (rerankCalls w + (calls - 1)) request = Ok response
    | Throw message =>
        calls = budget /\
        exists m,
          cohere_rerank (rerankCalls w + (calls - 1)) request = Throw m /\
          message = classifyError m
    end.

(** The retries between two worlds: the calls after the first one. *)
Definition retriesMade (before after : World) : nat :=
  rerankCalls after - rerankCalls before - 1.

(** [prepareDocuments(chunks, truncateChunks)] *)
Definition prepareDocument (truncateChunks : bool) (chunk : Chunk) : Document :=
  let content :=
    if truthy (content chunk) then content chunk
    else if truthy (text chunk) then text chunk else "" in
  let content :=
    if truncateChunks && (maxChunkLength this <? String.length content)%nat
    then (String.substring 0 (maxChunkLength this) content ++ "...")%string
    else content in
  {| doc_text := content |}.

Definition prepareDocuments (chunks : list Chunk) (truncateChunks : bool)
  : list Document :=
  map (prepareDocument truncateChunks) chunks.

(** [result.document?.text], the empty string when there is none. *)
Definition returnedText (item : RerankResultItem) : string :=
  match document item with
  | Some d => doc_text d
  | None => ""
  end.

(** The callback of [processRerankResults] for one item of the response.
    Reading a property of [originalChunks[originalIndex]] when the index is
    out of range is a [TypeError]. *)
Definition processRerankResult (originalChunks : list Chunk)
    (includeOriginalRank : bool) (newRank : nat) (item : RerankResultItem)
  : result Chunk :=
  let originalIndex := index item in
  let documentText := returnedText item in
  match nth_error originalChunks originalIndex with
  | None =>
      if truthy documentText
      then Throw "Cannot read properties of undefined (reading 'metadata')"
      else Throw "Cannot read properties of undefined (reading 'content')"
  | Some originalChunk =>
      let inherited := orDefault (metadata originalChunk) emptyMetadata in
      Ok {| id := id originalChunk;
            content :=
              if truthy documentText then documentText
              else content originalChunk;
            source := source originalChunk; title := title originalChunk;
            section := section originalChunk;
            position := position originalChunk;
            similarity := similarity originalChunk;
            text := text originalChunk;
            embedding := embedding originalChunk;
            queryEmbedding := queryEmbedding originalChunk;
            mmrScore := mmrScore originalChunk;
            rank := rank originalChunk;
            metadata :=
              Some {| meta_mmrScore := meta_mmrScore inherited;
                      tokenCount := tokenCount inherited;
                      contentLength := contentLength inherited;
                      meta_retrievalMethod := Some "reranked";
                      rerankModel := Some (model this);
                      meta_rerankScore := Some (relevanceScore item);
                      originalSimilarity := Some (similarity originalChunk);
                      scoreImprovement :=
                        Some (relevanceScore item - similarity originalChunk)%Q |};
            retrievalMethod := retrievalMethod originalChunk;
            rerankScore := Some (relevanceScore item);
            rerankRank := Some (newRank + 1);
            originalRank :=
              if includeOriginalRank then Some (originalIndex + 1)
              else originalRank originalChunk;
            rankImprovement :=
              if includeOriginalRank
              then Some (Z.of_nat (originalIndex + 1) - Z.of_nat (newRank + 1))%Z
              else rankImprovement originalChunk |}
  end.

Fixpoint processLoop (originalChunks : list Chunk) (includeOriginalRank : bool)
    (newRank : nat) (items : list RerankResultItem) : result (list Chunk) :=
  match items with
  | [] => Ok []
  | item :: rest =>
      let* chunk :=
        processRerankResult originalChunks includeOriginalRank newRank item in
      let* chunks :=
        processLoop originalChunks includeOriginalRank (S newRank) rest in
      Ok (chunk :: chunks)
  end.

Definition processRerankResults (rerankResponse : RerankResponse)
    (originalChunks : list Chunk) (includeOriginalRank : bool)
  : result (list Chunk) :=
  processLoop originalChunks includeOriginalRank 0
    (response_results rerankResponse).

(** [validateInputs(query, chunks, topN)] *)
Definition validateInputs (query : string) (chunks : list Chunk) (topN : nat)
  : result unit :=
  if negb (truthy query) || (String.length (trim query) =? 0)%nat then
    Throw "Query is required and must be a non-empty string"
  else if (length chunks =? 0)%nat then
    Throw "Chunks must be a non-empty array"
  else if (topN <? 1)%nat || (100 <? topN)%nat then
    Throw "topN must be between 1 and 100"
  else
    let invalidChunks :=
      filter (fun chunk => negb (truthy (content chunk)) && negb (truthy (text chunk)))
        chunks in
    if (0 <? length invalidChunks)%nat then
      Throw (NilEmpty.string_of_uint (Nat.to_uint (length invalidChunks))
             ++ " chunks missing content/text field")
    else Ok tt.

(** [calculateRerankingStats(originalChunks, rerankedChunks)].  The reranked
    chunks carry [originalSimilarity] inside [metadata] only, so that
    [chunk.originalSimilarity || 0] is [0]. *)
Definition calculateRerankingStats (originalChunks rerankedChunks : list Chunk)
  : RerankStats :=
  let rerankScores := map (fun chunk => orDefault (rerankScore chunk) 0%Q) rerankedChunks in
  let originalSimilarities := map similarity originalChunks in
  let rankChanges :=
    map (fun chunk => inject_Z (orDefault (rankImprovement chunk) 0%Z)) rerankedChunks in
  let significantChanges :=
    length (filter (fun change => Qle_bool 2 (Math_abs change)) rankChanges) in
  let scoreImprovements :=
    map (fun chunk => (orDefault (rerankScore chunk) 0 - 0)%Q) rerankedChunks in
  {| avgRerankScore := (sumQ rerankScores / lengthQ rerankScores)%Q;
     maxRerankScore := maxOf rerankScores;
     minRerankScore := minOf rerankScores;
     avgOriginalSimilarity :=
       (sumQ originalSimilarities / lengthQ originalSimilarities)%Q;
     avgRankChange := (sumQ (map Math_abs rankChanges) / lengthQ rankChanges)%Q;
     significantRankChanges := significantChanges;
     avgScoreImprovement :=
       (sumQ scoreImprovements / lengthQ scoreImprovements)%Q;
     reorderingRate :=
       (inject_Z (Z.of_nat significantChanges) / lengthQ rerankedChunks)%Q;
     processingTime := 0%Q |}.

(** [rerankChunks(query, chunks, options)] *)
Definition rerankChunks (query : string) (chunks : list Chunk)
    (options : RerankOptions) : Async RerankOutput :=
  let topN := orDefault (ro_topN options) (defaultTopN this) in
  let model := orDefault (ro_model options) (model this) in
  let includeOriginalRank := orDefault (ro_includeOriginalRank options) true in
  let truncateChunks := orDefault (ro_truncateChunks options) true in
  tryCatch
    (do _ <- ofResult (validateInputs query chunks topN);
     let documents := prepareDocuments chunks truncateChunks in
     do rerankResponse <-
       callCohereRerank query documents
         {| call_model := Some model;
            call_topN := Some (Nat.min topN (length chunks));
            call_returnDocuments := Some true |};
     do rerankedResults <-
       ofResult (processRerankResults rerankResponse chunks includeOriginalRank);
     let stats := calculateRerankingStats chunks rerankedResults in
     resolve
       {| rerank_query := query;
          originalCount := length chunks;
          rerankedCount := length rerankedResults;
          rerank_results := rerankedResults;
          rerank_metadata :=
            {| rerank_model := model; rerank_topN := topN; stats := stats;
               rerank_processingTime := processingTime stats |} |})
    (fun message => reject ("Reranking failed: " ++ message)).

End RerankingService.

(** ** The complete pipeline *)

Record PipelineMetadata : Type := {
  pipeline : string;
  mmrMetadata : MMRMetadata;
  rerankMetadata : RerankMetadata;
  totalCandidates : nat;
  mmrResults : nat;
  pipeline_finalResults : nat;
  pipeline_avgRerankScore : Q;
  pipeline_reorderingRate : Q;
  pipeline_parameters : Parameters
}.

(** The [metadata] of what [retrieveWithMMRAndRerank] returns: that of the
    MMR retrieval when reranking is not run, the merged envelope otherwise.
    Neither has a field that marks a skipped or failed reranking. *)
Inductive ResultMetadata : Type :=
| OfMMR (m : MMRMetadata)
| OfPipeline (m : PipelineMetadata).

Record RetrievalResult : Type := {
  result_query : string;
  results : list Chunk;
  result_metadata : ResultMetadata
}.

Section CompletePipeline.

Variable embeddingService : EmbeddingService.
Variable search_similar_documents :
  Embedding -> Q -> nat -> option string -> option string -> result (list Row).
Variable cohere_rerank : nat -> RerankRequest -> result RerankResponse.
Variable rerankingService : RerankingService.
Variable this : VectorRetriever.

(** The options [retrieveWithMMRAndRerank] passes to [retrieveWithMMR]. *)
Definition mmrOptions (options : RetrievalOptions) : RetrievalOptions :=
  {| opt_topK := Some (orDefault (opt_topK options) (defaultTopK this));
     opt_finalK := Some (orDefault (opt_finalK options) (defaultFinalK this));
     opt_rerankTopN := None;
     opt_lambda := Some (orDefault (opt_lambda options) (defaultLambda this));
     opt_threshold :=
       Some (orDefault (opt_threshold options) (defaultThreshold this));
     opt_source := opt_source options;
     opt_section := opt_section options;
     opt_includeMetadata := Some false;    (* metadata is added after reranking *)
     opt_useReranking := None |}.

Definition retrieveWithMMRAndRerank (query : string) (options : RetrievalOptions)
  : Async RetrievalResult :=
  let topK := orDefault (opt_topK options) (defaultTopK this) in
  let finalK := orDefault (opt_finalK options) (defaultFinalK this) in
  let rerankTopN := orDefault (opt_rerankTopN options) 5 in
  let lambda := orDefault (opt_lambda options) (defaultLambda this) in
  let threshold := orDefault (opt_threshold options) (defaultThreshold this) in
  let source := opt_source options in
  let section := opt_section options in
  let includeMetadata := orDefault (opt_includeMetadata options) true in
  let useReranking := orDefault (opt_useReranking options) true in
  tryCatch
    (do mmr <-
       ofResult
         (retrieveWithMMR embeddingService search_similar_documents this query
            (mmrOptions options));
     if negb useReranking || (length (mmr_results mmr) =? 0)%nat then
       resolve
         {| result_query := mmr_query mmr; results := mmr_results mmr;
            result_metadata := OfMMR (mmr_metadata mmr) |}
     else
       do rerankResults <-
         rerankChunks cohere_rerank rerankingService query (mmr_results mmr)
           {| ro_topN := Some (Nat.min rerankTopN (length (mmr_results mmr)));
              ro_model := None; ro_includeScores := None;
              ro_includeOriginalRank := Some true;
              ro_truncateChunks := None |};
       let finalResults :=
         formatResults (rerank_results rerankResults) includeMetadata in
       resolve
         {| result_query := query; results := finalResults;
            result_metadata :=
              OfPipeline
                {| pipeline := "mmr_rerank";
                   mmrMetadata := mmr_metadata mmr;
                   rerankMetadata := rerank_metadata rerankResults;
                   totalCandidates := candidatesFound (mmr_metadata mmr);
                   mmrResults := length (mmr_results mmr);
                   pipeline_finalResults := length (rerank_results rerankResults);
                   pipeline_avgRerankScore :=
                     avgRerankScore (stats (rerank_metadata rerankResults));
                   pipeline_reorderingRate :=
                     reorderingRate (stats (rerank_metadata rerankResults));
                   pipeline_parameters :=
                     {| param_topK := topK; param_finalK := finalK;
                        param_rerankTopN := Some rerankTopN;
                        param_lambda := lambda; param_threshold := threshold |} |} |})
    (fun message => reject ("Complete retrieval failed: " ++ message)).

End CompletePipeline.

(** The service of the source: its [cosineSimilarity], and an embedding
    provider given from outside. *)
Definition sourceEmbeddingService (provider : string -> result Embedding)
  : EmbeddingService :=
  {| generateEmbedding := provider; cosineSimilarity := cosineSimilarity_src |}.

(** ** The formulas of the specification

    Written from the words of the specification, to be compared with the
    code above. *)

Section SpecificationFormulas.

Variable embeddingService : EmbeddingService.

(** The cosine similarities of [ri] with the later results, over the pairs
    in which both have an embedding. *)
Fixpoint comparableWith (ri : Chunk) (later : list Chunk) : result (list Q) :=
  match later with
  | [] => Ok []
  | rj :: rest =>
      match embedding ri, embedding rj with
      | Some ei, Some ej =>
          let* sim := cosineSimilarity embeddingService ei ej in
          let* sims := comparableWith ri rest in
          Ok (sim :: sims)
      | _, _ => comparableWith ri rest
      end
  end.

(** The similarities of all comparable pairs [i < j]. *)
Fixpoint comparablePairs (results : list Chunk) : result (list Q) :=
  match results with
  | [] => Ok []
  | ri :: later =>
      let* sims := comparableWith ri later in
      let* others := comparablePairs later in
      Ok (sims ++ others)
  end.

(** One minus the mean of the comparable pairs; [1] with fewer than
    [least] of them. *)
Definition meanDiversity (least : nat) (results : list Chunk) : result Q :=
  let* sims := comparablePairs results in
  if (length sims <? least)%nat then Ok 1%Q
  else Ok (1 - sumQ sims / lengthQ sims)%Q.

(** The diversity score in the words of the specification: the default [1]
    applies below two comparable pairs. *)
Definition specDiversityScore : list Chunk -> result Q := meanDiversity 2.

(** The score of a candidate that nothing penalises. *)
Definition relevanceOnly (lambda : Q) (c : Chunk) : Q :=
  (lambda * similarity c - (1 - lambda) * 0)%Q.

End SpecificationFormulas.

(** Two results agree: the same error, or numbers equal as rationals. *)
Definition sameOutcome (r1 r2 : result Q) : Prop :=
  match r1, r2 with
  | Ok a, Ok b => (a == b)%Q
  | Throw m1, Throw m2 => m1 = m2
  | _, _ => False
  end.

(** ** Well-formed inputs *)

(** The reranker fails at every call. *)
Definition alwaysFails
    (cohere_rerank : nat -> RerankRequest -> result RerankResponse) : Prop :=
  forall calls request, exists m, cohere_rerank calls request = Throw m.

(** The service computes a similarity for every two vectors of one
    dimension (the source throws on a mismatch of lengths only). *)
Definition cosineDefined (embeddingService : EmbeddingService) : Prop :=
  forall e1 e2 : Embedding,
    length e1 = length e2 ->
    exists q, cosineSimilarity embeddingService e1 e2 = Ok q.

(** The dimension of the embeddings is fixed corpus-wide. *)
Definition sameDimension (D : nat) (chunks : list Chunk) : Prop :=
  Forall (fun c => forall e, embedding c = Some e -> length e = D) chunks.

(** No candidate carries an embedding. *)
Definition noEmbedding (chunks : list Chunk) : Prop :=
  Forall (fun c => embedding c = None) chunks.

(** ** Concrete inputs *)

Definition chunkOf (i : string) (c : string) (sim : Q) (e : option Embedding)
  : Chunk :=
  {| id := i; content := c; source := "doc.md"; title := "Doc";
     section := "intro"; position := 0%Z; similarity := sim; text := "";
     embedding := e; queryEmbedding := Some [1%Q; 0%Q]; mmrScore := None;
     rank := None; metadata := None; retrievalMethod := None;
     rerankScore := None; rerankRank := None; originalRank := None;
     rankImprovement := None |}.

(** An embedding provider that answers every text with the same vector. *)
Definition constantProvider (text : string) : result Embedding :=
  Ok [1%Q; 0%Q].

Definition testEmbeddingService : EmbeddingService :=
  sourceEmbeddingService constantProvider.

(** Three candidates: [chunkB] points away from [chunkA], [chunkC] is
    orthogonal to it. *)
Definition chunkA : Chunk := chunkOf "a" "alpha" (9 # 10) (Some [1%Q; 0%Q]).
Definition chunkB : Chunk := chunkOf "b" "beta" (5 # 10) (Some [(-1)%Q; 0%Q]).
Definition chunkC : Chunk := chunkOf "c" "gamma" (6 # 10) (Some [0%Q; 1%Q]).

(** A second chunk with the embedding of [chunkA]. *)
Definition chunkA2 : Chunk := chunkOf "a2" "alpha again" (8 # 10) (Some [1%Q; 0%Q]).


(** A vector store with two rows above every threshold. *)
Definition twoRows (queryEmbedding : Embedding) (threshold : Q) (count : nat)
    (source section : option string) : result (list Row) :=
  Ok (firstn count
        [ mkRow "a" "alpha" "doc.md" "Doc" "intro" 0%Z (9 # 10);
          mkRow "b" "beta" "doc.md" "Doc" "intro" 1%Z (8 # 10) ]).

(** A reranker that is down. *)
Definition failingReranker (calls : nat) (request : RerankRequest)
  : result RerankResponse :=
  Throw "service unavailable".

(** A reranker that scores the documents in the order sent and returns
    them as it received them. *)
Definition echoItem (returnDocuments : bool) (i : nat) (d : Document)
  : RerankResultItem :=
  {| index := i;
     relevanceScore := (1 / inject_Z (Z.of_nat (i + 2)))%Q;
     document := if returnDocuments then Some d else None |}.

Definition echoReranker (calls : nat) (request : RerankRequest)
  : result RerankResponse :=
  Ok {| response_results :=
          firstn (req_topN request)
            (mapi (echoItem (req_returnDocuments request)) 0
               (req_documents request)) |}.

Fixpoint repeatChar (c : ascii) (n : nat) : string :=
  match n with
  | 0 => EmptyString
  | S n' => String c (repeatChar c n')
  end.

(** A chunk one character longer than [maxChunkLength]. *)
Definition longChunk : Chunk :=
  chunkOf "long" (repeatChar "x"%char 4097) (9 # 10) None.

Definition noOptions : RetrievalOptions :=
  mkOptions None None None None None None None None None.

(** The arguments of a direct call of the reranking service. *)
Definition oneDocument : list Document := [ {| doc_text := "alpha" |} ].

Definition callDefaults : CallOptions :=
  {| call_model := None; call_topN := Some 1; call_returnDocuments := Some true |}.

Definition rerankOne : RerankOptions :=
  {| ro_topN := Some 1; ro_model := None; ro_includeScores := None;
     ro_includeOriginalRank := None; ro_truncateChunks := None |}.

(** ** Further methods of the retriever and of the services *)

(** [removeDuplicates(results)]: the filter with the [seen] set of ids. *)
Fixpoint removeDuplicatesFrom (seen : list string) (results : list Chunk)
  : list Chunk :=
  match results with
  | [] => []
  | r :: rest =>
      if existsb (String.eqb (id r)) seen
      then removeDuplicatesFrom seen rest
      else r :: removeDuplicatesFrom (id r :: seen) rest
  end.

Definition removeDuplicates (results : list Chunk) : list Chunk :=
  removeDuplicatesFrom [] results.

(** [Math.ceil(a / b)] on natural numbers, [b] not zero. *)
Definition ceilDiv (a b : nat) : nat := (a + b - 1) / b.

Record MultiStepMetadata : Type := {
  ms_steps : nat;
  ms_totalCandidates : nat;
  ms_uniqueResults : nat;
  ms_finalResults : nat
}.

Record MultiStepResult : Type := {
  ms_query : string;
  ms_results : list Chunk;
  ms_metadata : MultiStepMetadata
}.

(** [{ ...options, finalK: k }] *)
Definition withFinalK (options : RetrievalOptions) (k : nat) : RetrievalOptions :=
  {| opt_topK := opt_topK options; opt_finalK := Some k;
     opt_rerankTopN := opt_rerankTopN options; opt_lambda := opt_lambda options;
     opt_threshold := opt_threshold options; opt_source := opt_source options;
     opt_section := opt_section options;
     opt_includeMetadata := opt_includeMetadata options;
     opt_useReranking := opt_useReranking options |}.

Section MultiStepRetrieve.

Variable embeddingService : EmbeddingService.
Variable search_similar_documents :
  Embedding -> Q -> nat -> option string -> option string -> result (list Row).
Variable this : VectorRetriever.

(** The loop [for (let step = 0; step < steps; step++)].  The first argument
    is [steps - step], the number of steps still to run; [step < steps - 1]
    holds exactly when more than one is left. *)
Fixpoint multiStepLoop (stepsLeft : nat) (query : string)
    (options : RetrievalOptions) (stepFinalK : nat) (currentQuery : string)
    (allResults : list Chunk) : result (list Chunk) :=
  match stepsLeft with
  | 0 => Ok allResults
  | S stepsLeft' =>
      let* stepResults :=
        retrieveWithMMR embeddingService search_similar_documents this
          currentQuery (withFinalK options stepFinalK) in
      let allResults := allResults ++ mmr_results stepResults in
      let currentQuery :=
        match stepsLeft', mmr_results stepResults with
        | S _, topResult :: _ =>
            (query ++ " " ++ String.substring 0 100 (content topResult))%string
        | _, _ => currentQuery
        end in
      multiStepLoop stepsLeft' query options stepFinalK currentQuery allResults
  end.

(** [multiStepRetrieve(query, options)]; [steps] is [options.steps]. *)
Definition multiStepRetrieve (query : string) (steps : option nat)
    (options : RetrievalOptions) : result MultiStepResult :=
  let steps := orDefault steps 2 in
  let finalK := orDefault (opt_finalK options) (defaultFinalK this) in
  rethrow "Multi-step retrieval failed: "
    (let* allResults :=
       multiStepLoop steps query options (ceilDiv finalK steps) query [] in
     let uniqueResults := removeDuplicates allResults in
     let rerankedResults :=
       firstn finalK (sortDescBy similarity uniqueResults) in
     Ok {| ms_query := query; ms_results := rerankedResults;
           ms_metadata :=
             {| ms_steps := steps;
                ms_totalCandidates := length allResults;
                ms_uniqueResults := length uniqueResults;
                ms_finalResults := length rerankedResults |} |}).

(** [contextualRetrieve(query, context, options)] *)
Definition contextualRetrieve (query context : string)
    (options : RetrievalOptions) : result MMRResult :=
  let expandedQuery :=
    if truthy context
    then (context ++ String (ascii_of_nat 10) (String (ascii_of_nat 10) "Query: ")
          ++ query)%string
    else query in
  rethrow "Contextual retrieval failed: "
    (retrieveWithMMR embeddingService search_similar_documents this
       expandedQuery options).

End MultiStepRetrieve.

(** *** batchRerank *)

(** The [query] of a pair as the caller hands it over: a string, or a value
    that is not one (missing, [null], a number, ...; the route of
    [batchRerank] does not check the pairs), on which [query.substring]
    raises the TypeError [typeError].  A pair that is [null] itself raises
    such an error when it is destructured, with the same effect. *)
Inductive QueryValue : Type :=
| QueryString (query : string)
| NotAString (typeError : string).

Record QueryChunkPair : Type := {
  pair_query : QueryValue;
  pair_chunks : list Chunk;
  pair_metadata : list (string * string)
}.

(** [{ index, metadata, ...result }]: the spread of [result] comes last, so
    that its [metadata] replaces that of the pair. *)
Record BatchSuccess : Type := {
  success_index : nat;
  success_output : RerankOutput
}.

(** [{ index, query, error, metadata }] *)
Record BatchError : Type := {
  error_index : nat;
  error_query : string;
  error_message : string;
  error_metadata : list (string * string)
}.

Record BatchOutput : Type := {
  successful : nat;
  failed : nat;
  batch_results : list BatchSuccess;
  batch_errors : list BatchError
}.

(** [query.substring(0, n)] *)
Definition querySubstring (query : QueryValue) (n : nat) : result string :=
  match query with
  | QueryString q => Ok (String.substring 0 n q)
  | NotAString typeError => Throw typeError
  end.

Section BatchRerank.

Variable cohere_rerank : nat -> RerankRequest -> result RerankResponse.
Variable this : RerankingService.

(** [this.rerankChunks(query, chunks, options)] on the query of a pair.  The
    first statement in the [try] of [rerankChunks] logs
    [query.substring(0, 50)]: on a value that is not a string it raises, and
    the [catch] rethrows, before the reranker is called. *)
Definition rerankChunksOf (query : QueryValue) (chunks : list Chunk)
    (options : RerankOptions) : Async RerankOutput :=
  match query with
  | QueryString q => rerankChunks cohere_rerank this q chunks options
  | NotAString typeError => reject ("Reranking failed: " ++ typeError)
  end.

(** The loop [for (let i = 0; i < queryChunkPairs.length; i++)], with the
    pairs from index [i] on.  The [catch] block itself evaluates
    [query.substring(0, 50)]; what it raises leaves [batchRerank]. *)
Fixpoint batchLoop (pairs : list QueryChunkPair) (i : nat)
    (options : RerankOptions) (results : list BatchSuccess)
    (errors : list BatchError) : Async (list BatchSuccess * list BatchError) :=
  match pairs with
  | [] => resolve (results, errors)
  | item :: rest =>
      do acc <-
        tryCatch
          (do result <-
             rerankChunksOf (pair_query item) (pair_chunks item) options;
           let results :=
             results ++ [ {| success_index := i; success_output := result |} ] in
           match rest with
           | _ :: _ => do _ <- delay 100; resolve (results, errors)
           | [] => resolve (results, errors)
           end)
          (fun message =>
             do shown <- ofResult (querySubstring (pair_query item) 50);
             resolve
               (results,
                errors ++ [ {| error_index := i;
                               error_query := shown;
                               error_message := message;
                               error_metadata := pair_metadata item |} ]));
      batchLoop rest (S i) options (fst acc) (snd acc)
  end.

Definition batchRerank (queryChunkPairs : list QueryChunkPair)
    (options : RerankOptions) : Async BatchOutput :=
  do acc <- batchLoop queryChunkPairs 0 options [] [];
  resolve {| successful := length (fst acc); failed := length (snd acc);
             batch_results := fst acc; batch_errors := snd acc |}.

End BatchRerank.

(** Every pair of the batch has a string as its query. *)
Definition stringQueries (pairs : list QueryChunkPair) : Prop :=
  Forall (fun item => exists q, pair_query item = QueryString q) pairs.

(** *** createBatches *)

(** [createBatches(array, batchSize)] of the embedding service.  The loop
    [for (let i = 0; i < array.length; i += batchSize)] is run on the part of
    the array from [i] on; [fuel] bounds its iterations, and [None] is a run
    that needs more (with [batchSize = 0] the loop does not end). *)
Fixpoint createBatchesFrom {A : Type} (fuel : nat) (rest : list A)
    (batchSize : nat) : option (list (list A)) :=
  match rest with
  | [] => Some []
  | _ :: _ =>
      match fuel with
      | 0 => None
      | S fuel' =>
          option_map (cons (firstn batchSize rest))
            (createBatchesFrom fuel' (skipn batchSize rest) batchSize)
      end
  end.

Definition createBatches {A : Type} (array : list A) (batchSize : nat)
  : option (list (list A)) :=
  createBatchesFrom (length array) array batchSize.

(** The record the dense pass of [reciprocalRankFusion] makes for the
    result at [index]. *)
Definition denseRecord {A : Type} (denseWeight k : Q) (index : nat) (r : A)
  : Fused A :=
  {| fusedResult := r; rrfScore := (denseWeight / rankNumber k index)%Q;
     denseRank := Some (index + 1); sparseRank := None |}.


(** A chunk as [formatResults] leaves it: none of the fields of the earlier
    stages but [metadata]. *)
Definition formatted (c : Chunk) : Prop :=
  embedding c = None /\ queryEmbedding c = None /\ mmrScore c = None /\
  rerankScore c = None /\ rerankRank c = None /\ originalRank c = None /\
  rankImprovement c = None.

(** A chunk without its [mmrScore]. *)
Definition clearMmrScore (c : Chunk) : Chunk :=
  {| id := id c; content := content c; source := source c; title := title c;
     section := section c; position := position c; similarity := similarity c;
     text := text c; embedding := embedding c;
     queryEmbedding := queryEmbedding c; mmrScore := None;
     rank := rank c; metadata := metadata c;
     retrievalMethod := retrievalMethod c; rerankScore := rerankScore c;
     rerankRank := rerankRank c; originalRank := originalRank c;
     rankImprovement := rankImprovement c |}.

(** ** Concrete inputs for the further properties *)

(** The record the fusion makes for a chunk first in both lists. *)
Definition fusedFirst : Fused Chunk :=
  {| fusedResult := chunkA;
     rrfScore := (defaultDenseWeight / rankNumber defaultK 0
                  + defaultSparseWeight / rankNumber defaultK 0)%Q;
     denseRank := Some 1; sparseRank := Some 1 |}.


(** An embedding provider that is out of quota, and a vector store that is
    down. *)
Definition downProvider (text : string) : result Embedding :=
  Throw "quota exceeded".

Definition downStore (queryEmbedding : Embedding) (threshold : Q) (count : nat)
    (source section : option string) : result (list Row) :=
  Throw "connection refused".


Definition withoutReranking : RetrievalOptions :=
  mkOptions None None None None None None None None (Some false).

Definition oneItem : RerankResponse :=
  {| response_results :=
       [ {| index := 0; relevanceScore := 9 # 10; document := None |} ] |}.

Definition twoPairs : list QueryChunkPair :=
  [ {| pair_query := QueryString "first"; pair_chunks := [chunkA];
       pair_metadata := [] |};
    {| pair_query := QueryString "second"; pair_chunks := [chunkB];
       pair_metadata := [] |} ].

(** A batch whose second pair came without a query. *)
Definition brokenPairs : list QueryChunkPair :=
  [ {| pair_query := QueryString "first"; pair_chunks := [chunkA];
       pair_metadata := [] |};
    {| pair_query :=
         NotAString "Cannot read properties of undefined (reading 'substring')";
       pair_chunks := [chunkB]; pair_metadata := [] |};
    {| pair_query := QueryString "third"; pair_chunks := [chunkC];
       pair_metadata := [] |} ].


(** * The numeric core in binary64 *)

(** The selection of [applyMMR], the cosine similarity and the scores of
    [reciprocalRankFusion] once more, on IEEE 754 binary64 numbers as
    JavaScript computes them: products and quotients are rounded, a quotient
    of zeros is NaN, and every comparison with NaN is false. *)

Module Binary64.

Import PrimFloat.
#[local] Set Warnings "-inexact-float".
Local Open Scope float_scope.

Definition Embedding : Type := list float.

(** [a > b]: false when either side is NaN. *)
Definition gt (a b : float) : bool := b <? a.

(** [Math.max(a, b)]: NaN when either argument is, and [+0] for the two
    zeros. *)
Definition Math_max (a b : float) : float :=
  if is_nan a || is_nan b then nan
  else if a <? b then b
  else if b <? a then a
  else if get_sign a then b else a.

(** An array index as a number. *)
Definition ofIndex (index : nat) : float :=
  of_uint63 (Uint63.of_Z (Z.of_nat index)).

(** ** cosineSimilarity *)

Record EmbeddingService : Type := {
  cosineSimilarity : Embedding -> Embedding -> result float
}.

(** The loop of [cosineSimilarity]: [(dotProduct, norm1, norm2)]. *)
Fixpoint cosineLoop (embedding1 embedding2 : Embedding)
    (acc : float * float * float) : float * float * float :=
  match embedding1, embedding2 with
  | x :: xs, y :: ys =>
      let '(dotProduct, norm1, norm2) := acc in
      cosineLoop xs ys (dotProduct + x * y, norm1 + x * x, norm2 + y * y)
  | _, _ => acc
  end.

Definition cosineSimilarity_src (embedding1 embedding2 : Embedding)
  : result float :=
  if negb (length embedding1 =? length embedding2)%nat then
    Throw "Embeddings must have the same dimensions"
  else
    let '(dotProduct, norm1, norm2) :=
      cosineLoop embedding1 embedding2 (0, 0, 0) in
    Ok (dotProduct / (sqrt norm1 * sqrt norm2)).

Definition sourceEmbeddingService : EmbeddingService :=
  {| cosineSimilarity := cosineSimilarity_src |}.

(** ** applyMMR *)

Section ApplyMMR.

(** [applyMMR] reads [similarity] and [embedding] and writes [mmrScore];
    the other properties of a candidate (id, content, ...) are copied as
    they are and kept in [fields].  [similarity] is the number the
    comparisons and the products see: NaN for a missing one. *)
Context {A : Type}.

Record Candidate : Type := {
  fields : A;
  similarity : float;
  embedding : option Embedding;
  mmrScore : option float
}.

(** [{ ...bestCandidate, mmrScore: bestScore }] *)
Definition withMmrScore (c : Candidate) (score : float) : Candidate :=
  {| fields := fields c; similarity := similarity c;
     embedding := embedding c; mmrScore := Some score |}.

Variable embeddingService : EmbeddingService.

(** [remaining.reduce((best, current) =>
       current.similarity > best.similarity ? current : best)],
    carried with the index of [best]. *)
Fixpoint reduceLoop (arr : list Candidate) (index : nat) (best : nat * Candidate)
  : nat * Candidate :=
  match arr with
  | [] => best
  | current :: rest =>
      reduceLoop rest (S index)
        (if gt (similarity current) (similarity (snd best))
         then (index, current) else best)
  end.

Definition reduceMostRelevant (remaining : list Candidate)
  : result (nat * Candidate) :=
  match remaining with
  | [] => Throw "Reduce of empty array with no initial value"
  | first :: rest => Ok (reduceLoop rest 1%nat (0%nat, first))
  end.

(** The inner loop [for (const selectedDoc of selected)]. *)
Fixpoint maxSimilarityLoop (candidate : Candidate) (selected : list Candidate)
    (maxSimilarityToSelected : float) : result float :=
  match selected with
  | [] => Ok maxSimilarityToSelected
  | selectedDoc :: rest =>
      match embedding candidate, embedding selectedDoc with
      | Some ce, Some se =>
          let* sim := cosineSimilarity embeddingService ce se in
          maxSimilarityLoop candidate rest (Math_max maxSimilarityToSelected sim)
      | _, _ => maxSimilarityLoop candidate rest maxSimilarityToSelected
      end
  end.

(** [lambda * relevanceScore - (1 - lambda) * maxSimilarityToSelected] *)
Definition mmrScoreOf (lambda : float) (selected : list Candidate)
    (candidate : Candidate) : result float :=
  let relevanceScore := similarity candidate in
  let* maxSimilarityToSelected := maxSimilarityLoop candidate selected 0 in
  Ok (lambda * relevanceScore - (1 - lambda) * maxSimilarityToSelected).

(** The loop [for (const candidate of remaining)].  [best] is
    [(bestCandidate, bestScore)], the candidate with its index; it starts as
    [(null, -Infinity)], and a score replaces [bestScore] only when
    [mmrScore > bestScore] holds: never when it is NaN or [-Infinity]. *)
Fixpoint bestLoop (lambda : float) (selected remaining : list Candidate)
    (index : nat) (best : option (nat * Candidate) * float)
  : result (option (nat * Candidate) * float) :=
  match remaining with
  | [] => Ok best
  | candidate :: rest =>
      let* mmrScore := mmrScoreOf lambda selected candidate in
      bestLoop lambda selected rest (S index)
        (if gt mmrScore (snd best)
         then (Some (index, candidate), mmrScore) else best)
  end.

(** [while (selected.length < finalK && remaining.length > 0)].  The first
    argument is [finalK - selected.length]; the loop ends at the [break]
    when no candidate was taken. *)
Fixpoint mmrLoop (picksLeft : nat) (lambda : float)
    (selected remaining : list Candidate) : result (list Candidate) :=
  match picksLeft with
  | 0%nat => Ok selected
  | S picksLeft' =>
      match remaining with
      | [] => Ok selected
      | _ :: _ =>
          let* best := bestLoop lambda selected remaining 0%nat (None, neg_infinity) in
          match best with
          | (Some (index, bestCandidate), bestScore) =>
              mmrLoop picksLeft' lambda
                (selected ++ [withMmrScore bestCandidate bestScore])
                (splice1 index remaining)
          | (None, _) => Ok selected
          end
      end
  end.

Definition applyMMR (queryEmbedding : Embedding) (candidates : list Candidate)
    (finalK : nat) (lambda : float) : result (list Candidate) :=
  if (length candidates <=? finalK)%nat then Ok candidates
  else
    let selected := [] in
    let remaining := candidates in
    let* (index, mostRelevant) := reduceMostRelevant remaining in
    let selected := selected ++ [mostRelevant] in
    let remaining := splice1 index remaining in
    mmrLoop (finalK - length selected) lambda selected remaining.

(** *** What the statements on applyMMR refer to *)

(** The service computes a similarity for every two vectors of one
    dimension. *)
Definition cosineDefined : Prop :=
  forall e1 e2 : Embedding,
    length e1 = length e2 ->
    exists q, cosineSimilarity embeddingService e1 e2 = Ok q.

Definition sameDimension (D : nat) (candidates : list Candidate) : Prop :=
  Forall (fun c => forall e, embedding c = Some e -> length e = D) candidates.

Definition noEmbedding (candidates : list Candidate) : Prop :=
  Forall (fun c => embedding c = None) candidates.

(** A candidate without its [mmrScore]. *)
Definition clearMmrScore (c : Candidate) : Candidate :=
  {| fields := fields c; similarity := similarity c;
     embedding := embedding c; mmrScore := None |}.

(** A candidate the loop cannot take after [selected]: its score is NaN or
    [-Infinity]. *)
Definition notAbove (lambda : float) (selected : list Candidate)
    (c : Candidate) : Prop :=
  exists score,
    mmrScoreOf lambda selected c = Ok score /\ gt score neg_infinity = false.

(** The score of a candidate that nothing penalises. *)
Definition relevanceOnly (lambda : float) (c : Candidate) : float :=
  lambda * similarity c - (1 - lambda) * 0.

(** The MMR score as the comment on [applyMMR] states it,
    [lambda * Sim(q, d) - (1 - lambda) * max(Sim(d, d_i))]: the maximum is
    taken over the selected [d_i], a pair in which either side lacks an
    embedding counting as [0]. *)
Fixpoint pairSimilarities (d : Candidate) (selected : list Candidate)
  : result (list float) :=
  match selected with
  | [] => Ok []
  | s :: rest =>
      let* sim :=
        match embedding d, embedding s with
        | Some ed, Some es => cosineSimilarity embeddingService ed es
        | _, _ => Ok 0
        end in
      let* sims := pairSimilarities d rest in
      Ok (sim :: sims)
  end.

Definition statedMmr (lambda : float) (selected : list Candidate)
    (d : Candidate) : result float :=
  let* sims := pairSimilarities d selected in
  let largest :=
    match sims with
    | [] => 0
    | sim :: others => fold_left Math_max others sim
    end in
  Ok (lambda * similarity d - (1 - lambda) * largest).

End ApplyMMR.

Arguments Candidate : clear implicits.

(** ** reciprocalRankFusion *)

Section ReciprocalRankFusion.

Context {A : Type}.
Variable getId : A -> string.

(** [{ ...result, rrfScore, denseRank, sparseRank }] *)
Record Fused : Type := {
  fusedResult : A;
  rrfScore : float;
  denseRank : option nat;
  sparseRank : option nat
}.

(** A [Map] in insertion order. *)
Definition ScoreMap : Type := list (string * Fused).

Fixpoint mapGet (key : string) (m : ScoreMap) : option Fused :=
  match m with
  | [] => None
  | (k, v) :: rest => if String.eqb k key then Some v else mapGet key rest
  end.

Fixpoint mapSet (key : string) (value : Fused) (m : ScoreMap) : ScoreMap :=
  match m with
  | [] => [(key, value)]
  | (k, v) :: rest =>
      if String.eqb k key then (k, value) :: rest
      else (k, v) :: mapSet key value rest
  end.

(** [k + index + 1] *)
Definition rankNumber (k : float) (index : nat) : float :=
  k + ofIndex index + 1.

(** [denseResults.forEach((result, index) => ...)] *)
Fixpoint denseLoop (denseWeight k : float) (denseResults : list A) (index : nat)
    (scoreMap : ScoreMap) : ScoreMap :=
  match denseResults with
  | [] => scoreMap
  | result :: rest =>
      let rrf := denseWeight / rankNumber k index in
      denseLoop denseWeight k rest (S index)
        (mapSet (getId result)
           {| fusedResult := result; rrfScore := rrf;
              denseRank := Some (index + 1)%nat; sparseRank := None |}
           scoreMap)
  end.

(** [sparseResults.forEach((result, index) => ...)] *)
Fixpoint sparseLoop (sparseWeight k : float) (sparseResults : list A)
    (index : nat) (scoreMap : ScoreMap) : ScoreMap :=
  match sparseResults with
  | [] => scoreMap
  | result :: rest =>
      let rrf := sparseWeight / rankNumber k index in
      sparseLoop sparseWeight k rest (S index)
        (match mapGet (getId result) scoreMap with
         | Some existing =>
             mapSet (getId result)
               {| fusedResult := fusedResult existing;
                  rrfScore := rrfScore existing + rrf;
                  denseRank := denseRank existing;
                  sparseRank := Some (index + 1)%nat |}
               scoreMap
         | None =>
             mapSet (getId result)
               {| fusedResult := result; rrfScore := rrf;
                  denseRank := None; sparseRank := Some (index + 1)%nat |}
               scoreMap
         end)
  end.

Definition fuseScores (denseResults sparseResults : list A)
    (denseWeight sparseWeight k : float) : ScoreMap :=
  sparseLoop sparseWeight k sparseResults 0%nat
    (denseLoop denseWeight k denseResults 0%nat []).

(** [.sort((a, b) => b.rrfScore - a.rrfScore)]: an element stays behind a
    later one exactly when the comparator is positive on them. *)
Fixpoint insertByScore (x : Fused) (sorted : list Fused) : list Fused :=
  match sorted with
  | [] => [x]
  | y :: rest =>
      if gt (rrfScore y - rrfScore x) 0 then y :: insertByScore x rest
      else x :: y :: rest
  end.

Definition reciprocalRankFusion (denseResults sparseResults : list A)
    (denseWeight sparseWeight k : float) : list Fused :=
  fold_right insertByScore []
    (map snd (fuseScores denseResults sparseResults denseWeight sparseWeight k)).

(** The first row of [arr] with id [key], and its index counted from
    [index]. *)
Fixpoint findById (key : string) (arr : list A) (index : nat) : option (nat * A) :=
  match arr with
  | [] => None
  | r :: rest =>
      if String.eqb (getId r) key then Some (index, r)
      else findById key rest (S index)
  end.


Definition distinctIds (arr : list A) : Prop := NoDup (map getId arr).

Definition mapOk (m : ScoreMap) : Prop :=
  NoDup (map fst m) /\
  forall key value, In (key, value) m -> getId (fusedResult value) = key.

End ReciprocalRankFusion.

Arguments Fused : clear implicits.
Arguments ScoreMap : clear implicits.

(** ** Concrete inputs *)

Definition candidate (name : string) (sim : float) (e : option Embedding)
  : Candidate string :=
  {| fields := name; similarity := sim; embedding := e; mmrScore := None |}.

(** Two candidates point in opposite directions. *)
Definition opposed : list (Candidate string) :=
  [ candidate "a" 0.9 (Some [1; 0]);
    candidate "b" 0.5 (Some [-1; 0]);
    candidate "c" 0.6 (Some [0; 1]) ].

(** The most similar candidate carries a zero vector. *)
Definition withZeroVector : list (Candidate string) :=
  [ candidate "a" 0.9 (Some [0; 0]);
    candidate "b" 0.8 (Some [1; 0]);
    candidate "c" 0.7 (Some [0; 1]) ].


(** ** The stable descending sort and the earliest maximum *)

Section Orderings.

Context {B : Type}.
Variable key : B -> float.

(** [arr.sort((a, b) => key(b) - key(a))] on keys that are numbers: larger
    keys first, equal keys in input order. *)
Fixpoint insertDesc (x : B) (sorted : list B) : list B :=
  match sorted with
  | [] => [x]
  | y :: rest =>
      if gt (key y) (key x) then y :: insertDesc x rest
      else x :: y :: rest
  end.

Definition sortDescBy (arr : list B) : list B := fold_right insertDesc [] arr.


End Orderings.

End Binary64.

(** * Properties *)

(** ** Numbers and arrays *)

Lemma Qgtb_true (a b : Q) : Qgtb a b = true <-> (b < a)%Q.
Proof.
  unfold Qgtb. rewrite negb_true_iff.
  split; intro H.
  - apply Qnot_le_lt. intro Hle. apply Qle_bool_iff in Hle. congruence.
  - destruct (Qle_bool a b) eqn:E; [|reflexivity].
    apply Qle_bool_iff in E. lra.
Qed.

Lemma Qgtb_false (a b : Q) : Qgtb a b = false <-> (a <= b)%Q.
Proof.
  unfold Qgtb. rewrite negb_false_iff. apply Qle_bool_iff.
Qed.

Ltac caseQgtb a b H :=
  destruct (Qgtb a b) eqn:H;
  [apply Qgtb_true in H | apply Qgtb_false in H].

Lemma splice1_length {A : Type} (i : nat) (arr : list A) :
  i < length arr -> length (splice1 i arr) = length arr - 1.
Proof.
  intro H. unfold splice1.
  rewrite length_app, length_firstn, length_skipn. lia.
Qed.

Lemma splice1_In {A : Type} (i : nat) (arr : list A) (x : A) :
  In x (splice1 i arr) -> In x arr.
Proof.
  unfold splice1. intro H. apply in_app_or in H as [H | H].
  - rewrite <- (firstn_skipn i arr). apply in_or_app. now left.
  - rewrite <- (firstn_skipn (S i) arr). apply in_or_app. now right.
Qed.

Lemma splice1_Forall {A : Type} (P : A -> Prop) (i : nat) (arr : list A) :
  Forall P arr -> Forall P (splice1 i arr).
Proof.
  rewrite !Forall_forall. intros H x Hx. apply H. eapply splice1_In; eauto.
Qed.

Lemma list_eq_dec_nil {A : Type} (l : list A) : {l = []} + {l <> []}.
Proof.
  destruct l; [now left | now right].
Qed.

Lemma nth_error_lt {A : Type} (arr : list A) (i : nat) (x : A) :
  nth_error arr i = Some x -> i < length arr.
Proof.
  intro H. apply nth_error_Some. congruence.
Qed.

Lemma withMmrScore_embedding (c : Chunk) (s : Q) :
  embedding (withMmrScore c s) = embedding c.
Proof. reflexivity. Qed.

Lemma withMmrScore_similarity (c : Chunk) (s : Q) :
  similarity (withMmrScore c s) = similarity c.
Proof. reflexivity. Qed.

(** ** The first pick of applyMMR *)

Lemma reduceLoop_spec (rest : list Chunk) :
  forall (idx i0 : nat) (b : Chunk) (i : nat) (m : Chunk),
    reduceLoop rest idx (i0, b) = (i, m) ->
    i0 < idx ->
    ((i = i0 /\ m = b) \/
     (idx <= i /\ nth_error rest (i - idx) = Some m /\
      (similarity b < similarity m)%Q)) /\
    (similarity b <= similarity m)%Q /\
    (forall c, In c rest -> (similarity c <= similarity m)%Q) /\
    (forall j c, nth_error rest j = Some c -> idx + j < i ->
                 (similarity c < similarity m)%Q).
Proof.
  induction rest as [|y t IH]; intros idx i0 b i m Hred Hlt; simpl in Hred.
  - inversion Hred; subst. repeat split.
    + now left.
    + lra.
    + intros c [].
    + intros [|j] c Hj; discriminate.
  - cbn [snd] in Hred.
    caseQgtb (similarity y) (similarity b) Hyb.
    + apply IH in Hred as (Hwhere & Hle & Hall & Hbefore); [|lia].
      repeat split.
      * right. destruct Hwhere as [[-> ->] | (Hi & Hnth & Hym)].
        -- rewrite Nat.sub_diag. repeat split; auto.
        -- replace (i - idx) with (S (i - S idx)) by lia.
           repeat split; [lia | exact Hnth | lra].
      * lra.
      * intros c [<- | Hc]; auto.
      * intros [|j] c Hj Hidx.
        -- inversion Hj; subst c.
           destruct Hwhere as [[-> _] | (_ & _ & Hym)]; [lia | exact Hym].
        -- apply (Hbefore j c Hj). lia.
    + apply IH in Hred as (Hwhere & Hle & Hall & Hbefore); [|lia].
      repeat split.
      * destruct Hwhere as [[-> ->] | (Hi & Hnth & Hbm)]; [now left|].
        right. replace (i - idx) with (S (i - S idx)) by lia.
        repeat split; [lia | exact Hnth | exact Hbm].
      * exact Hle.
      * intros c [<- | Hc]; [lra | auto].
      * intros [|j] c Hj Hidx.
        -- inversion Hj; subst c.
           destruct Hwhere as [[-> _] | (_ & _ & Hbm)]; [lia | lra].
        -- apply (Hbefore j c Hj). lia.
Qed.

Lemma reduceMostRelevant_spec (candidates : list Chunk) :
  candidates <> [] ->
  exists i m,
    reduceMostRelevant candidates = Ok (i, m) /\
    nth_error candidates i = Some m /\
    (forall c, In c candidates -> (similarity c <= similarity m)%Q) /\
    (forall j c, j < i -> nth_error candidates j = Some c ->
                 (similarity c < similarity m)%Q).
Proof.
  destruct candidates as [|first rest]; [congruence|]. intros _.
  simpl. destruct (reduceLoop rest 1 (0, first)) as [i m] eqn:Hred.
  exists i, m. apply reduceLoop_spec in Hred as (Hwhere & Hle & Hall & Hbefore);
    [|lia].
  repeat split.
  - destruct Hwhere as [[-> ->] | (Hi & Hnth & _)]; [reflexivity|].
    destruct i as [|i]; [lia|]. simpl.
    now replace (S i - 1) with i in Hnth by lia.
  - intros c [<- | Hc]; auto.
  - intros [|j] c Hji Hj; simpl in Hj.
    + inversion Hj; subst c.
      destruct Hwhere as [[-> _] | (_ & _ & Hlt)]; [lia | exact Hlt].
    + apply (Hbefore j c Hj). lia.
Qed.

(** ** The MMR loop *)

Section MMRLoop.

Variable svc : EmbeddingService.




(** What the scan of [remaining] leaves in [bestCandidate], [bestScore]. *)
Lemma bestLoop_spec (lambda : Q) (selected remaining : list Chunk) :
  forall idx best b,
    bestLoop svc lambda selected remaining idx best = Ok b ->
    (forall i0 c0 s0, best = Some (i0, c0, s0) -> i0 < idx) ->
    match b with
    | None => best = None /\ remaining = []
    | Some (i, c, s) =>
        (best = Some (i, c, s) \/
         (idx <= i /\ nth_error remaining (i - idx) = Some c /\
          mmrScoreOf svc lambda selected c = Ok s /\
          (forall i0 c0 s0, best = Some (i0, c0, s0) -> (s0 < s)%Q))) /\
        (forall i0 c0 s0, best = Some (i0, c0, s0) -> (s0 <= s)%Q) /\
        (forall d, In d remaining ->
           exists sd, mmrScoreOf svc lambda selected d = Ok sd /\ (sd <= s)%Q) /\
        (forall j d sd, nth_error remaining j = Some d -> idx + j < i ->
           mmrScoreOf svc lambda selected d = Ok sd -> (sd < s)%Q)
    end.
Proof.
  induction remaining as [|y t IH]; intros idx best b Hrun Hidx; simpl in Hrun.
  - inversion Hrun; subst b. destruct best as [[[i c] s]|]; [|now split].
    repeat split.
    + now left.
    + intros i0 c0 s0 H. inversion H; subst. lra.
    + intros d [].
    + intros [|j] d sd Hj; discriminate.
  - destruct (mmrScoreOf svc lambda selected y) as [sy|msg] eqn:Hy;
      simpl in Hrun; [|discriminate].
    destruct best as [[[i0 c0] s0]|].
    + specialize (Hidx i0 c0 s0 eq_refl).
      caseQgtb sy s0 Hgt.
      * apply IH in Hrun; [|intros ? ? ? H; inversion H; lia].
        destruct b as [[[i c] s]|]; [|destruct Hrun; discriminate].
        destruct Hrun as (Hwhere & Hle & Hall & Hbefore).
        specialize (Hle idx y sy eq_refl).
        repeat split.
        -- right. destruct Hwhere as [H | (Hi & Hnth & Hsc & Hlt)].
           ++ inversion H; subst. rewrite Nat.sub_diag.
              repeat split; auto. intros ? ? ? H'. inversion H'; subst. lra.
           ++ replace (i - idx) with (S (i - S idx)) by lia.
              repeat split; [lia | exact Hnth | exact Hsc |].
              intros ? ? ? H'. inversion H'; subst. lra.
        -- intros ? ? ? H'. inversion H'; subst. lra.
        -- intros d [<- | Hd]; [exists sy; now split | auto].
        -- intros [|j] d sd Hj Hji Hd.
           ++ inversion Hj; subst d. rewrite Hy in Hd. inversion Hd; subst sd.
              destruct Hwhere as [H | (_ & _ & _ & Hlt)].
              ** inversion H; lia.
              ** apply (Hlt idx y sy eq_refl).
           ++ apply (Hbefore j d sd Hj); [lia | exact Hd].
      * apply IH in Hrun; [|intros ? ? ? H; inversion H; lia].
        destruct b as [[[i c] s]|]; [|destruct Hrun; discriminate].
        destruct Hrun as (Hwhere & Hle & Hall & Hbefore).
        specialize (Hle i0 c0 s0 eq_refl).
        repeat split.
        -- destruct Hwhere as [H | (Hi & Hnth & Hsc & Hlt)]; [now left|].
           right. replace (i - idx) with (S (i - S idx)) by lia.
           repeat split; [lia | exact Hnth | exact Hsc | exact Hlt].
        -- intros ? ? ? H'. inversion H'; subst. exact Hle.
        -- intros d [<- | Hd]; [exists sy; split; [exact Hy | lra] | auto].
        -- intros [|j] d sd Hj Hji Hd.
           ++ inversion Hj; subst d. rewrite Hy in Hd. inversion Hd; subst sd.
              destruct Hwhere as [H | (_ & _ & _ & Hlt)].
              ** inversion H; lia.
              ** specialize (Hlt i0 c0 s0 eq_refl). lra.
           ++ apply (Hbefore j d sd Hj); [lia | exact Hd].
    + apply IH in Hrun; [|intros ? ? ? H; inversion H; lia].
      destruct b as [[[i c] s]|]; [|destruct Hrun; discriminate].
      destruct Hrun as (Hwhere & Hle & Hall & Hbefore).
      specialize (Hle idx y sy eq_refl).
      repeat split.
      * right. destruct Hwhere as [H | (Hi & Hnth & Hsc & Hlt)].
        -- inversion H; subst. rewrite Nat.sub_diag.
           repeat split; auto. intros ? ? ? H'. discriminate.
        -- replace (i - idx) with (S (i - S idx)) by lia.
           repeat split; [lia | exact Hnth | exact Hsc |].
           intros ? ? ? H'. discriminate.
      * intros ? ? ? H'. discriminate.
      * intros d [<- | Hd]; [exists sy; now split | auto].
      * intros [|j] d sd Hj Hji Hd.
        -- inversion Hj; subst d. rewrite Hy in Hd. inversion Hd; subst sd.
           destruct Hwhere as [H | (_ & _ & _ & Hlt)].
           ++ inversion H; lia.
           ++ apply (Hlt idx y sy eq_refl).
        -- apply (Hbefore j d sd Hj); [lia | exact Hd].
Qed.

(** One scan from the start: the pick, its score and where it stands. *)
Lemma bestLoop_start (lambda : Q) (selected remaining : list Chunk) b :
  remaining <> [] ->
  bestLoop svc lambda selected remaining 0 None = Ok b ->
  exists i c s,
    b = Some (i, c, s) /\
    nth_error remaining i = Some c /\
    mmrScoreOf svc lambda selected c = Ok s /\
    (forall d, In d remaining ->
       exists sd, mmrScoreOf svc lambda selected d = Ok sd /\ (sd <= s)%Q) /\
    (forall j d sd, nth_error remaining j = Some d -> j < i ->
       mmrScoreOf svc lambda selected d = Ok sd -> (sd < s)%Q).
Proof.
  intros Hne Hrun. apply bestLoop_spec in Hrun; [|discriminate].
  destruct b as [[[i c] s]|]; [|destruct Hrun; contradiction].
  destruct Hrun as (Hwhere & _ & Hall & Hbefore).
  destruct Hwhere as [H | (_ & Hnth & Hsc & _)]; [discriminate|].
  rewrite Nat.sub_0_r in Hnth.
  exists i, c, s. repeat split; auto.
Qed.

(** One iteration of the loop whose guard holds. *)
Lemma mmrLoop_step (n : nat) (lambda : Q) (selected remaining : list Chunk) :
  remaining <> [] ->
  mmrLoop svc (S n) lambda selected remaining =
  bind (bestLoop svc lambda selected remaining 0 None)
    (fun best =>
       match best with
       | Some (index, bestCandidate, bestScore) =>
           mmrLoop svc n lambda
             (selected ++ [withMmrScore bestCandidate bestScore])
             (splice1 index remaining)
       | None => Ok selected
       end).
Proof.
  destruct remaining; [congruence | reflexivity].
Qed.


End MMRLoop.

(** ** The source's cosine similarity *)



(** ** applyMMR: size, short circuit, first pick *)

(** Whatever the loop returns is [selected] followed by its picks, as many
    as the guard allows, each a remaining candidate with its [mmrScore]. *)
Lemma mmrLoop_picks (svc : EmbeddingService) (lambda : Q) :
  forall picksLeft selected remaining out,
    mmrLoop svc picksLeft lambda selected remaining = Ok out ->
    exists picks,
      out = selected ++ picks /\
      length picks = Nat.min picksLeft (length remaining) /\
      Forall (fun o => exists c s, In c remaining /\ o = withMmrScore c s) picks.
Proof.
  induction picksLeft as [|n IH]; intros selected remaining out Hrun.
  - inversion Hrun; subst. exists []. rewrite app_nil_r. repeat split.
    constructor.
  - destruct (list_eq_dec_nil remaining) as [-> | Hne].
    + inversion Hrun; subst. exists []. rewrite app_nil_r. repeat split.
      constructor.
    + rewrite mmrLoop_step in Hrun by exact Hne.
      destruct (bestLoop svc lambda selected remaining 0 None) as [b|msg] eqn:Hb;
        [|discriminate].
      destruct (bestLoop_start svc lambda selected remaining b Hne Hb)
        as (i & c & s & -> & Hnth & _).
      cbn [bind] in Hrun. apply IH in Hrun as (picks & -> & Hlen & Hall).
      exists (withMmrScore c s :: picks). rewrite <- app_assoc.
      split; [reflexivity|]. split.
      * cbn [length].
        rewrite Hlen, splice1_length by (eapply nth_error_lt; eauto).
        apply nth_error_lt in Hnth. lia.
      * constructor.
        -- exists c, s. split; [eapply nth_error_In; eauto | reflexivity].
        -- eapply Forall_impl; [|exact Hall].
           intros o (c' & s' & Hc' & ->). exists c', s'. split; auto.
           eapply splice1_In; eauto.
Qed.

(** Past the short circuit, whatever [applyMMR] returns starts with the
    earliest candidate of maximal similarity, followed by the picks of the
    loop. *)
Lemma applyMMR_returned (svc : EmbeddingService) (queryEmbedding : Embedding)
    (candidates : list Chunk) (finalK : nat) (lambda : Q) (out : list Chunk) :
  finalK < length candidates ->
  applyMMR svc queryEmbedding candidates finalK lambda = Ok out ->
  exists i first picks,
    out = first :: picks /\
    nth_error candidates i = Some first /\
    (forall c, In c candidates -> (similarity c <= similarity first)%Q) /\
    (forall j c, j < i -> nth_error candidates j = Some c ->
                 (similarity c < similarity first)%Q) /\
    length picks = Nat.min (finalK - 1) (length candidates - 1) /\
    Forall (fun o => exists c s, In c candidates /\ o = withMmrScore c s) picks.
Proof.
  intros Hlt. unfold applyMMR.
  assert (Hleb : (length candidates <=? finalK)%nat = false)
    by (apply Nat.leb_gt; exact Hlt).
  rewrite Hleb.
  destruct (reduceMostRelevant_spec candidates)
    as (i & m & -> & Hnth & Hmax & Hfirst).
  { intros ->. simpl in Hlt. lia. }
  cbn [bind app length]. intro Hrun.
  apply mmrLoop_picks in Hrun as (picks & -> & Hlen & Hall).
  exists i, m, picks. repeat split; auto.
  - rewrite Hlen, splice1_length by (eapply nth_error_lt; eauto). reflexivity.
  - eapply Forall_impl; [|exact Hall].
    intros o (c & s & Hc & ->). exists c, s. split; auto.
    eapply splice1_In; eauto.
Qed.

(** The short circuit. *)
Lemma applyMMR_at_most_finalK (svc : EmbeddingService) (queryEmbedding : Embedding)
    (candidates : list Chunk) (finalK : nat) (lambda : Q) :
  length candidates <= finalK ->
  applyMMR svc queryEmbedding candidates finalK lambda = Ok candidates.
Proof.
  intro H. unfold applyMMR.
  apply Nat.leb_le in H. now rewrite H.
Qed.


Section ApplyMMR.

Variable svc : EmbeddingService.

(** C5. When there are at most [finalK] candidates, [applyMMR] returns the
    candidates themselves, unchanged and in input order. *)
Theorem applyMMR_short_circuit (queryEmbedding : Embedding)
    (candidates : list Chunk) (finalK : nat) (lambda : Q) :
  length candidates <= finalK ->
  applyMMR svc queryEmbedding candidates finalK lambda = Ok candidates.
Proof.
  apply applyMMR_at_most_finalK.
Qed.


End ApplyMMR.

Lemma applyMMR_short_circuit_witness :
  length [chunkA; chunkB] <= 2 /\
  applyMMR testEmbeddingService [1%Q; 0%Q] [chunkA; chunkB] 2 (7 # 10)
    = Ok [chunkA; chunkB].
Proof.
  split; [simpl; lia|].
  apply (applyMMR_short_circuit testEmbeddingService). simpl. lia.
Defined.


(** ** The stable descending sort *)

Section SortDescProperties.

Context {B : Type}.
Variable key : B -> Q.

Lemma insertDesc_Permutation (x : B) (sorted : list B) :
  Permutation (insertDesc key x sorted) (x :: sorted).
Proof.
  induction sorted as [|y rest IH]; simpl; [reflexivity|].
  destruct (Qgtb (key y) (key x)); [|reflexivity].
  rewrite IH. apply perm_swap.
Qed.

(** The sort keeps the elements. *)
Lemma sortDescBy_Permutation (arr : list B) :
  Permutation (sortDescBy key arr) arr.
Proof.
  induction arr as [|x rest IH]; simpl; [reflexivity|].
  rewrite insertDesc_Permutation. now constructor.
Qed.

Lemma insertDesc_sorted (x : B) (sorted : list B) :
  StronglySorted (fun a b => (key b <= key a)%Q) sorted ->
  StronglySorted (fun a b => (key b <= key a)%Q) (insertDesc key x sorted).
Proof.
  induction sorted as [|y rest IH]; intro Hs; simpl.
  - constructor; constructor.
  - inversion Hs as [|? ? Hrest Hy]; subst.
    caseQgtb (key y) (key x) Hyx.
    + constructor; [auto|].
      apply Forall_forall. intros z Hz.
      apply (Permutation_in _ (insertDesc_Permutation x rest)) in Hz.
      destruct Hz as [<- | Hz]; [lra|].
      rewrite Forall_forall in Hy. auto.
    + constructor; [exact Hs|].
      constructor; [exact Hyx|].
      rewrite Forall_forall in Hy |- *. intros z Hz.
      specialize (Hy z Hz). lra.
Qed.

(** The sort puts larger keys first. *)
Lemma sortDescBy_sorted (arr : list B) :
  StronglySorted (fun a b => (key b <= key a)%Q) (sortDescBy key arr).
Proof.
  induction arr as [|x rest IH]; simpl; [constructor|].
  now apply insertDesc_sorted.
Qed.


End SortDescProperties.

(** ** Candidates without embeddings *)

Section WithoutEmbeddings.

Variable svc : EmbeddingService.



End WithoutEmbeddings.

(** The candidates of the vector store never carry an embedding. *)
Lemma retrieveTopKCandidates_noEmbedding
    (search : Embedding -> Q -> nat -> option string -> option string ->
              result (list Row))
    (queryEmbedding : Embedding) (topK : nat) (threshold : Q)
    (source section : option string) (candidates : list Chunk) :
  retrieveTopKCandidates search queryEmbedding topK threshold source section
    = Ok candidates ->
  noEmbedding candidates.
Proof.
  unfold retrieveTopKCandidates.
  destruct (search queryEmbedding threshold topK source section) as [data|msg];
    [|discriminate].
  intro H. inversion H; subst. unfold noEmbedding.
  apply Forall_forall. intros c Hc. apply in_map_iff in Hc as (row & <- & _).
  reflexivity.
Qed.

(** ** calculateDiversityScore *)

Section DiversityScore.

Variable svc : EmbeddingService.

Lemma diversityInner_comparableWith (ri : Chunk) (later : list Chunk) :
  forall total comparisons,
    diversityInner svc ri later (total, comparisons) =
    match comparableWith svc ri later with
    | Ok sims => Ok (fold_left Qplus sims total, comparisons + length sims)
    | Throw message => Throw message
    end.
Proof.
  induction later as [|rj rest IH]; intros total comparisons; simpl.
  - now rewrite Nat.add_0_r.
  - destruct (embedding ri) as [ei|]; [|apply IH].
    destruct (embedding rj) as [ej|]; [|apply IH].
    destruct (cosineSimilarity svc ei ej) as [sim|msg]; [|reflexivity].
    cbn [bind]. rewrite IH.
    destruct (comparableWith svc ri rest) as [sims|msg]; [|reflexivity].
    cbn [bind fold_left length]. now rewrite Nat.add_succ_r.
Qed.

Lemma diversityOuter_comparablePairs (results : list Chunk) :
  forall total comparisons,
    diversityOuter svc results (total, comparisons) =
    match comparablePairs svc results with
    | Ok sims => Ok (fold_left Qplus sims total, comparisons + length sims)
    | Throw message => Throw message
    end.
Proof.
  induction results as [|ri later IH]; intros total comparisons; simpl.
  - now rewrite Nat.add_0_r.
  - rewrite diversityInner_comparableWith.
    destruct (comparableWith svc ri later) as [sims|msg]; [|reflexivity].
    cbn [bind]. rewrite IH.
    destruct (comparablePairs svc later) as [others|msg]; [|reflexivity].
    cbn [bind]. rewrite fold_left_app, length_app. now rewrite Nat.add_assoc.
Qed.

(** C8 (amended). [calculateDiversityScore] returns one minus the mean
    cosine similarity over the pairs of results in which both carry an
    embedding; it returns [1] when no such pair exists (in particular for
    fewer than two results), and the value of the formula already for a
    single comparable pair. *)
Theorem calculateDiversityScore_mean (results : list Chunk) :
  sameOutcome (calculateDiversityScore svc results) (meanDiversity svc 1 results).
Proof.
  unfold calculateDiversityScore, meanDiversity.
  destruct results as [|r1 [|r2 rest]]; try (simpl; lra).
  set (rs := r1 :: r2 :: rest).
  replace (length rs <=? 1)%nat with false by reflexivity.
  rewrite diversityOuter_comparablePairs.
  destruct (comparablePairs svc rs) as [sims|msg]; [|reflexivity].
  cbn [bind Nat.add]. unfold sameOutcome.
  destruct sims as [|q sims].
  - simpl. lra.
  - replace (0 <? length (q :: sims))%nat with true by reflexivity.
    replace (length (q :: sims) <? 1)%nat with false by reflexivity.
    unfold sumQ, lengthQ. lra.
Qed.

End DiversityScore.

(** C8, as stated, fails with exactly one comparable pair: two results with
    the same embedding score [0], where the stated default for fewer than
    two comparable pairs is [1]. *)
Lemma diversity_single_pair_counterexample :
  comparablePairs testEmbeddingService [chunkA; chunkA2] = Ok [1%Q] /\
  calculateDiversityScore testEmbeddingService [chunkA; chunkA2] = Ok 0%Q /\
  specDiversityScore testEmbeddingService [chunkA; chunkA2] = Ok 1%Q /\
  ~ sameOutcome (calculateDiversityScore testEmbeddingService [chunkA; chunkA2])
      (specDiversityScore testEmbeddingService [chunkA; chunkA2]).
Proof.
  repeat split; try reflexivity. intro H. vm_compute in H. discriminate.
Qed.

(** ** Enrichment keeps the id; what it does to the content *)

Lemma applyMMR_chunks (svc : EmbeddingService) (queryEmbedding : Embedding)
    (candidates : list Chunk) (finalK : nat) (lambda : Q) (out : list Chunk) :
  applyMMR svc queryEmbedding candidates finalK lambda = Ok out ->
  Forall (fun o => exists c, In c candidates /\
                             (o = c \/ exists s, o = withMmrScore c s)) out.
Proof.
  intro Hrun.
  destruct (Nat.le_gt_cases (length candidates) finalK) as [Hle | Hgt].
  - rewrite applyMMR_at_most_finalK in Hrun by exact Hle.
    inversion Hrun; subst. apply Forall_forall. eauto.
  - destruct (applyMMR_returned svc queryEmbedding candidates finalK lambda
                out Hgt Hrun)
      as (i & first & picks & -> & Hnth & _ & _ & _ & Hall).
    constructor.
    + exists first. split; [eapply nth_error_In; eauto | now left].
    + eapply Forall_impl; [|exact Hall].
      intros o (c & s & Hc & ->). exists c. eauto.
Qed.

Lemma processLoop_chunks (this : RerankingService) (originalChunks : list Chunk)
    (includeOriginalRank : bool) (items : list RerankResultItem) :
  forall newRank out,
    processLoop this originalChunks includeOriginalRank newRank items = Ok out ->
    Forall2
      (fun item o =>
         exists c,
           nth_error originalChunks (index item) = Some c /\
           id o = id c /\
           content o =
             (if truthy (returnedText item) then returnedText item else content c) /\
           rerankScore o = Some (relevanceScore item))
      items out.
Proof.
  induction items as [|item rest IH]; intros newRank out Hrun; simpl in Hrun.
  - inversion Hrun. constructor.
  - unfold processRerankResult in Hrun.
    destruct (nth_error originalChunks (index item)) as [c|] eqn:Hnth.
    + cbn [bind] in Hrun.
      destruct (processLoop this originalChunks includeOriginalRank (S newRank) rest)
        as [chunks|msg] eqn:Hrest; [|discriminate].
      cbn [bind] in Hrun. inversion Hrun; subst.
      constructor; [|eapply IH; eauto].
      exists c. repeat split. exact Hnth.
    + destruct (truthy (returnedText item)); discriminate.
Qed.

Lemma mapi_map {A B C : Type} (f : nat -> A -> B) (g : B -> C) (h : A -> C)
    (arr : list A) :
  (forall i x, g (f i x) = h x) ->
  forall index, map g (mapi f index arr) = map h arr.
Proof.
  intro H. induction arr as [|x rest IH]; intro index; simpl; [reflexivity|].
  now rewrite H, IH.
Qed.

(** C2 (amended). Every stage keeps the [id] of a chunk.  [applyMMR] and
    [formatResults] keep its [content] too.  [processRerankResults] keeps the
    [content] only when the reranker returned no document text for the item:
    otherwise the chunk takes the returned text as its [content]. *)
Theorem enrichment_id_and_content (svc : EmbeddingService)
    (this : RerankingService) :
  (forall queryEmbedding candidates finalK lambda selected,
     applyMMR svc queryEmbedding candidates finalK lambda = Ok selected ->
     Forall (fun o => exists c, In c candidates /\
                                id o = id c /\ content o = content c) selected) /\
  (forall rerankResponse originalChunks includeOriginalRank reranked,
     processRerankResults this rerankResponse originalChunks includeOriginalRank
       = Ok reranked ->
     Forall2
       (fun item o =>
          exists c,
            nth_error originalChunks (index item) = Some c /\
            id o = id c /\
            content o =
              (if truthy (returnedText item) then returnedText item
               else content c))
       (response_results rerankResponse) reranked) /\
  (forall results includeMetadata,
     map id (formatResults results includeMetadata) = map id results /\
     map content (formatResults results includeMetadata) = map content results).
Proof.
  repeat split.
  - intros queryEmbedding candidates finalK lambda selected Hrun.
    apply applyMMR_chunks in Hrun.
    eapply Forall_impl; [|exact Hrun].
    intros o (c & Hc & [-> | [s ->]]); exists c; auto.
  - intros rerankResponse originalChunks includeOriginalRank reranked Hrun.
    apply processLoop_chunks in Hrun.
    eapply Forall2_impl; [|exact Hrun].
    intros item o (c & H1 & H2 & H3 & _). eauto.
  - apply mapi_map. reflexivity.
  - apply mapi_map. reflexivity.
Qed.

(** C2, as stated, fails in reranking: a chunk longer than [maxChunkLength]
    is sent truncated, the reranker returns the text it received, and the
    reranked chunk carries the truncated text as its [content]. *)
Lemma rerank_changes_content_counterexample :
  exists out world reranked,
    rerankChunks echoReranker newRerankingService "query" [longChunk] rerankOne
      initialWorld = (Ok out, world) /\
    rerank_results out = [reranked] /\
    id reranked = id longChunk /\
    String.length (content longChunk) = 4097 /\
    String.length (content reranked) = 4099 /\
    content reranked <> content longChunk.
Proof.
  destruct (rerankChunks echoReranker newRerankingService "query" [longChunk]
              rerankOne initialWorld) as [r world] eqn:Hrun.
  vm_compute in Hrun.
  match type of Hrun with
  | (Ok ?o, ?w) = _ =>
      exists o, w;
      match o with
      | {| rerank_results := [?c] |} => exists c
      end
  end.
  inversion Hrun; subst.
  repeat split; try (vm_compute; reflexivity).
  intro H. apply (f_equal String.length) in H. vm_compute in H. discriminate.
Qed.

(** ** reciprocalRankFusion *)

Section FusionProperties.

Context {A : Type}.
Variable getId : A -> string.

Lemma mapGet_mapSet_same (key : string) (value : Fused A) (m : ScoreMap A) :
  mapGet key (mapSet key value m) = Some value.
Proof.
  induction m as [|[k v] rest IH]; simpl.
  - now rewrite String.eqb_refl.
  - destruct (String.eqb k key) eqn:E; simpl; rewrite E; auto.
Qed.

Lemma mapGet_mapSet_other (key key' : string) (value : Fused A) (m : ScoreMap A) :
  key <> key' ->
  mapGet key' (mapSet key value m) = mapGet key' m.
Proof.
  intro Hne. induction m as [|[k v] rest IH]; simpl.
  - destruct (String.eqb key key') eqn:E; [|reflexivity].
    apply String.eqb_eq in E. contradiction.
  - destruct (String.eqb k key) eqn:E; simpl.
    + apply String.eqb_eq in E. subst k.
      destruct (String.eqb key key') eqn:E'; [|reflexivity].
      apply String.eqb_eq in E'. contradiction.
    + now rewrite IH.
Qed.

Lemma mapGet_In (key : string) (value : Fused A) (m : ScoreMap A) :
  mapGet key m = Some value -> In (key, value) m.
Proof.
  induction m as [|[k v] rest IH]; simpl; [discriminate|].
  destruct (String.eqb k key) eqn:E.
  - apply String.eqb_eq in E. intro H. inversion H; subst. now left.
  - intro H. right. auto.
Qed.

Lemma In_mapGet (key : string) (value : Fused A) (m : ScoreMap A) :
  NoDup (map fst m) -> In (key, value) m -> mapGet key m = Some value.
Proof.
  induction m as [|[k v] rest IH]; simpl; [contradiction|].
  intros Hnd [H | H].
  - inversion H; subst. now rewrite String.eqb_refl.
  - inversion Hnd as [|? ? Hnotin Hnd']; subst.
    destruct (String.eqb k key) eqn:E; [|auto].
    apply String.eqb_eq in E. subst k. exfalso. apply Hnotin.
    apply in_map_iff. exists (key, value). auto.
Qed.

Lemma mapSet_In (key : string) (value : Fused A) (m : ScoreMap A) k v :
  In (k, v) (mapSet key value m) -> (k, v) = (key, value) \/ In (k, v) m.
Proof.
  induction m as [|[k0 v0] rest IH]; simpl.
  - intros [H | []]. now left.
  - destruct (String.eqb k0 key) eqn:E; simpl.
    + apply String.eqb_eq in E. subst k0. intros [H | H]; auto.
    + intros [H | H]; auto. destruct (IH H); auto.
Qed.

Lemma mapSet_keys (key : string) (value : Fused A) (m : ScoreMap A) k :
  In k (map fst (mapSet key value m)) -> k = key \/ In k (map fst m).
Proof.
  induction m as [|[k0 v0] rest IH]; simpl.
  - intros [H | []]. now left.
  - destruct (String.eqb k0 key) eqn:E; simpl.
    + intros [H | H]; auto.
    + intros [H | H]; auto. destruct (IH H); auto.
Qed.

Lemma mapSet_ok (key : string) (value : Fused A) (m : ScoreMap A) :
  mapOk getId m ->
  getId (fusedResult value) = key ->
  mapOk getId (mapSet key value m).
Proof.
  intros [Hnd Hid] Hkey. split.
  - clear Hid. induction m as [|[k0 v0] rest IH]; simpl.
    + constructor; [intros [] | constructor].
    + simpl in Hnd. apply NoDup_cons_iff in Hnd as [Hnotin Hnd'].
      destruct (String.eqb k0 key) eqn:E; simpl.
      * constructor; assumption.
      * constructor; [|auto]. intro Hin.
        apply mapSet_keys in Hin as [-> | Hin]; [|contradiction].
        rewrite String.eqb_refl in E. discriminate.
  - intros k v Hin. apply mapSet_In in Hin as [H | H].
    + inversion H; subst. reflexivity.
    + eauto.
Qed.

Lemma findById_None (key : string) (arr : list A) (index : nat) :
  ~ In key (map getId arr) -> findById getId key arr index = None.
Proof.
  revert index. induction arr as [|r rest IH]; intros index Hnotin; simpl;
    [reflexivity|].
  destruct (String.eqb (getId r) key) eqn:E.
  - apply String.eqb_eq in E. exfalso. apply Hnotin. now left.
  - apply IH. intro H. apply Hnotin. now right.
Qed.

(** What the dense pass leaves under a key. *)
Lemma denseLoop_get (denseWeight k : Q) (key : string) (denseResults : list A) :
  distinctIds getId denseResults ->
  forall index m,
    mapGet key (denseLoop getId denseWeight k denseResults index m) =
    match findById getId key denseResults index with
    | Some (i, r) =>
        Some {| fusedResult := r;
                rrfScore := (denseWeight / rankNumber k i)%Q;
                denseRank := Some (i + 1); sparseRank := None |}
    | None => mapGet key m
    end.
Proof.
  unfold distinctIds.
  induction denseResults as [|r rest IH]; intros Hnd index m; simpl;
    [reflexivity|].
  inversion Hnd as [|? ? Hnotin Hnd']; subst.
  rewrite (IH Hnd').
  destruct (String.eqb (getId r) key) eqn:E.
  - apply String.eqb_eq in E. subst key.
    rewrite findById_None by exact Hnotin.
    apply mapGet_mapSet_same.
  - destruct (findById getId key rest (S index)) as [[i r']|]; [reflexivity|].
    apply mapGet_mapSet_other. intro Heq. rewrite Heq, String.eqb_refl in E.
    discriminate.
Qed.

(** What the sparse pass leaves under a key. *)
Lemma sparseLoop_get (sparseWeight k : Q) (key : string) (sparseResults : list A) :
  distinctIds getId sparseResults ->
  forall index m,
    mapGet key (sparseLoop getId sparseWeight k sparseResults index m) =
    match findById getId key sparseResults index with
    | Some (j, r) =>
        Some match mapGet key m with
             | Some existing =>
                 {| fusedResult := fusedResult existing;
                    rrfScore :=
                      (rrfScore existing + sparseWeight / rankNumber k j)%Q;
                    denseRank := denseRank existing;
                    sparseRank := Some (j + 1) |}
             | None =>
                 {| fusedResult := r;
                    rrfScore := (sparseWeight / rankNumber k j)%Q;
                    denseRank := None; sparseRank := Some (j + 1) |}
             end
    | None => mapGet key m
    end.
Proof.
  unfold distinctIds.
  induction sparseResults as [|r rest IH]; intros Hnd index m; simpl;
    [reflexivity|].
  inversion Hnd as [|? ? Hnotin Hnd']; subst.
  rewrite (IH Hnd').
  destruct (String.eqb (getId r) key) eqn:E.
  - apply String.eqb_eq in E. subst key.
    rewrite findById_None by exact Hnotin.
    destruct (mapGet (getId r) m); apply mapGet_mapSet_same.
  - assert (Hne : getId r <> key).
    { intro Heq. rewrite Heq, String.eqb_refl in E. discriminate. }
    assert (Hsame : forall value,
              mapGet key (mapSet (getId r) value m) = mapGet key m).
    { intro value. now apply mapGet_mapSet_other. }
    destruct (mapGet (getId r) m); rewrite Hsame; reflexivity.
Qed.

Lemma denseLoop_ok (denseWeight k : Q) (denseResults : list A) :
  forall index m,
    mapOk getId m -> mapOk getId (denseLoop getId denseWeight k denseResults index m).
Proof.
  induction denseResults as [|r rest IH]; intros index m Hok; simpl; [exact Hok|].
  apply IH. now apply mapSet_ok.
Qed.

Lemma sparseLoop_ok (sparseWeight k : Q) (sparseResults : list A) :
  forall index m,
    mapOk getId m -> mapOk getId (sparseLoop getId sparseWeight k sparseResults index m).
Proof.
  induction sparseResults as [|r rest IH]; intros index m Hok; simpl; [exact Hok|].
  apply IH. destruct (mapGet (getId r) m) as [existing|] eqn:Hget.
  - apply mapSet_ok; [exact Hok|]. simpl.
    apply mapGet_In in Hget. destruct Hok as [_ Hid]. eauto.
  - now apply mapSet_ok.
Qed.

Lemma fuseScores_ok (denseResults sparseResults : list A)
    (denseWeight sparseWeight k : Q) :
  mapOk getId (fuseScores getId denseResults sparseResults denseWeight sparseWeight k).
Proof.
  apply sparseLoop_ok, denseLoop_ok. split; [constructor | intros ? ? []].
Qed.

(** The code computes the fused score of the specification. *)
Lemma fuseScores_spec (denseResults sparseResults : list A)
    (denseWeight sparseWeight k : Q) (key : string) :
  distinctIds getId denseResults ->
  distinctIds getId sparseResults ->
  option_map (@rrfScore A)
    (mapGet key
       (fuseScores getId denseResults sparseResults denseWeight sparseWeight k))
  = specFusedScore getId denseResults sparseResults denseWeight sparseWeight k key.
Proof.
  intros Hd Hs. unfold fuseScores, specFusedScore.
  rewrite (sparseLoop_get sparseWeight k key sparseResults Hs).
  rewrite (denseLoop_get denseWeight k key denseResults Hd).
  destruct (findById getId key denseResults 0) as [[i r]|];
    destruct (findById getId key sparseResults 0) as [[j r']|]; reflexivity.
Qed.

Lemma insertDesc_In {B : Type} (key : B -> Q) (x y : B) (sorted : list B) :
  In y (insertDesc key x sorted) <-> y = x \/ In y sorted.
Proof.
  induction sorted as [|z rest IH]; simpl.
  - intuition.
  - destruct (Qgtb (key z) (key x)); simpl; rewrite ?IH; intuition.
Qed.

Lemma sortDescBy_In {B : Type} (key : B -> Q) (y : B) (arr : list B) :
  In y (sortDescBy key arr) <-> In y arr.
Proof.
  induction arr as [|x rest IH]; simpl; [reflexivity|].
  rewrite insertDesc_In, IH. intuition.
Qed.

(** A fused record of the output is the one the map holds under its id. *)
Lemma reciprocalRankFusion_In (denseResults sparseResults : list A)
    (denseWeight sparseWeight k : Q) (f : Fused A) :
  In f (reciprocalRankFusion getId denseResults sparseResults
          denseWeight sparseWeight k) <->
  mapGet (getId (fusedResult f))
    (fuseScores getId denseResults sparseResults denseWeight sparseWeight k)
  = Some f.
Proof.
  unfold reciprocalRankFusion. rewrite sortDescBy_In.
  destruct (fuseScores_ok denseResults sparseResults denseWeight sparseWeight k)
    as [Hnd Hid].
  split.
  - intro Hin. apply in_map_iff in Hin as ([key value] & Hsnd & Hin).
    simpl in Hsnd. subst value.
    rewrite (Hid key f Hin). now apply In_mapGet.
  - intro Hget. apply mapGet_In in Hget.
    apply in_map_iff. exists (getId (fusedResult f), f). auto.
Qed.

End FusionProperties.

Lemma rankNumber_pos (k : Q) (j : nat) : (0 <= k)%Q -> (0 < rankNumber k j)%Q.
Proof.
  intro Hk. unfold rankNumber.
  assert (H : (inject_Z 0 <= inject_Z (Z.of_nat j))%Q)
    by (rewrite <- Zle_Qle; lia).
  change (inject_Z 0) with 0%Q in H. lra.
Qed.

Lemma distinctIds_examples :
  distinctIds id [chunkA; chunkB] /\ distinctIds id [chunkA; chunkC].
Proof.
  split; repeat constructor; simpl; intuition discriminate.
Qed.

(** ** callCohereRerank: attempts, delays and the final error *)

Section Retry.

Variable cohere_rerank : nat -> RerankRequest -> result RerankResponse.
Variable this : RerankingService.

Lemma callCohereRerankFrom_trace (query : string) (documents : list Document)
    (options : CallOptions) :
  forall attemptsLeft attempt w,
    retryTrace cohere_rerank this (S attemptsLeft) attempt
      (rerankRequest this query documents options) w
      (callCohereRerankFrom cohere_rerank this attemptsLeft query documents
         options attempt w).
Proof.
  set (request := rerankRequest this query documents options).
  induction attemptsLeft as [|left IH]; intros attempt w.
  - unfold retryTrace. simpl. unfold tryCatch, callApi. fold request.
    destruct (cohere_rerank (rerankCalls w) request) as [response|m] eqn:Hcall;
      exists 1; simpl; rewrite ?app_nil_r, ?Nat.add_0_r;
      repeat split; try lia; eauto; intros n Hn; lia.
  - unfold retryTrace. cbn [callCohereRerankFrom]. unfold tryCatch, callApi.
    fold request.
    destruct (cohere_rerank (rerankCalls w) request) as [response|m] eqn:Hcall.
    + exists 1. simpl. rewrite ?app_nil_r, ?Nat.add_0_r.
      repeat split; try lia; auto; intros n Hn; lia.
    + unfold await, delay. cbn [rerankCalls delays].
      set (w2 := {| rerankCalls := S (rerankCalls w);
                    delays := delays w ++ [retryDelay this * attempt] |}).
      destruct (IH (S attempt) w2) as (calls & Hcalls & Hcount & Hdelays & Hfailed & Hlast).
      fold request in Hcount, Hdelays, Hlast.
      exists (S calls). cbn [rerankCalls delays] in *.
      replace (S calls - 1) with (S (calls - 1)) by lia.
      repeat split.
      * lia.
      * lia.
      * rewrite Hcount. simpl. lia.
      * rewrite Hdelays. simpl. now rewrite <- app_assoc.
      * intros [|n] Hn.
        -- rewrite Nat.add_0_r. eauto.
        -- destruct (Hfailed n) as [m' Hm']; [lia|].
           exists m'. rewrite <- Hm'. simpl. f_equal. lia.
      * replace (rerankCalls w + S (calls - 1))
          with (S (rerankCalls w) + (calls - 1)) by lia.
        destruct (fst (callCohereRerankFrom cohere_rerank this left query
                         documents options (S attempt) w2)).
        -- exact Hlast.
        -- destruct Hlast as (-> & Hm). split; [reflexivity | exact Hm].
Qed.

(** C9 (amended). [callCohereRerank] calls the reranker at most
    [retryAttempts] times in all, the first call included (3 in the source:
    at most two retries); before each retry it waits [retryDelay * attempt],
    [attempt] being the number of the attempt that failed (1000 ms, then
    2000 ms).  It returns the first successful answer.  When the last
    allowed attempt fails too, it throws the error classified from the
    message of that failure: rate limit, invalid request, or the message
    itself behind "Cohere API error: ". *)
Theorem callCohereRerank_attempts (query : string) (documents : list Document)
    (options : CallOptions) (w : World) :
  retryTrace cohere_rerank this (Nat.max 1 (retryAttempts this)) 1
    (rerankRequest this query documents options) w
    (callCohereRerank cohere_rerank this query documents options w).
Proof.
  unfold callCohereRerank.
  replace (Nat.max 1 (retryAttempts this)) with (S (retryAttempts this - 1))
    by lia.
  apply callCohereRerankFrom_trace.
Qed.

End Retry.

(** C9, as stated, fails on the number of retries: against a reranker that
    is down, the call is made three times in all, with two retries and two
    delays, not three. *)
Lemma callCohereRerank_two_retries_counterexample :
  exists after,
    callCohereRerank failingReranker newRerankingService "query" oneDocument
      callDefaults initialWorld
    = (Throw "Cohere API error: service unavailable", after) /\
    rerankCalls after = 3 /\
    delays after = [1000; 2000] /\
    retriesMade initialWorld after = 2 /\
    retriesMade initialWorld after <> 3.
Proof.
  eexists. repeat split. discriminate.
Qed.

(** A rate limit met three times is reported as such. *)
Example callCohereRerank_rate_limit :
  fst (callCohereRerank (fun _ _ => Throw "429: rate limit reached")
         newRerankingService "query" oneDocument callDefaults initialWorld)
  = Throw "Cohere API rate limit exceeded. Please try again later.".
Proof. reflexivity. Qed.

(** A failure followed by a success costs one delay and returns the answer. *)
Example callCohereRerank_second_attempt :
  callCohereRerank
    (fun calls request =>
       match calls with
       | 0 => Throw "timeout"
       | _ => echoReranker calls request
       end)
    newRerankingService "query" oneDocument callDefaults initialWorld
  = (Ok {| response_results :=
             [ {| index := 0; relevanceScore := (1 / 2)%Q;
                  document := Some {| doc_text := "alpha" |} |} ] |},
     {| rerankCalls := 2; delays := [1000] |}).
Proof. reflexivity. Qed.

(** ** The complete pipeline when the reranker fails *)

Section PipelineFailure.

Variable svc : EmbeddingService.
Variable search :
  Embedding -> Q -> nat -> option string -> option string -> result (list Row).
Variable cohere_rerank : nat -> RerankRequest -> result RerankResponse.
Variable rerankingService : RerankingService.
Variable this : VectorRetriever.

Lemma callCohereRerank_alwaysFails (query : string) (documents : list Document)
    (options : CallOptions) (w : World) :
  alwaysFails cohere_rerank ->
  exists message w',
    callCohereRerank cohere_rerank rerankingService query documents options w
    = (Throw message, w').
Proof.
  intro Hfail.
  unfold callCohereRerank.
  destruct (callCohereRerankFrom_trace cohere_rerank rerankingService query
              documents options (retryAttempts rerankingService - 1) 1 w)
    as (calls & _ & _ & _ & _ & Hlast).
  destruct (callCohereRerankFrom cohere_rerank rerankingService
              (retryAttempts rerankingService - 1) query documents options 1 w)
    as [[response|message] w'].
  - simpl in Hlast.
    destruct (Hfail (rerankCalls w + (calls - 1))
                (rerankRequest rerankingService query documents options))
      as [m Hm].
    congruence.
  - eauto.
Qed.

Lemma rerankChunks_alwaysFails (query : string) (chunks : list Chunk)
    (options : RerankOptions) (w : World) :
  alwaysFails cohere_rerank ->
  exists message w',
    rerankChunks cohere_rerank rerankingService query chunks options w
    = (Throw ("Reranking failed: " ++ message), w').
Proof.
  intro Hfail. unfold rerankChunks, tryCatch, await, ofResult, reject.
  destruct (validateInputs query chunks
              (orDefault (ro_topN options) (defaultTopN rerankingService)))
    as [[]|message].
  - match goal with
    | |- context [callCohereRerank ?c ?t ?q ?d ?o ?w0] =>
        destruct (callCohereRerank_alwaysFails q d o w0 Hfail)
          as (message & w' & ->)
    end.
    eauto.
  - eauto.
Qed.

(** C1 (amended). In the complete pipeline, when the MMR retrieval has
    results and reranking is on, a reranker that always fails makes
    [retrieveWithMMRAndRerank] throw "Complete retrieval failed: Reranking
    failed: ..." to its caller.  The MMR result is returned as it is, with
    no marker added to its metadata, only when reranking is turned off or the
    MMR retrieval found nothing. *)
Theorem rerank_failure_propagates (query : string) (options : RetrievalOptions)
    (w : World) (mmr : MMRResult) :
  retrieveWithMMR svc search this query (mmrOptions this options) = Ok mmr ->
  (orDefault (opt_useReranking options) true = false \/ mmr_results mmr = [] ->
   retrieveWithMMRAndRerank svc search cohere_rerank rerankingService this
     query options w
   = (Ok {| result_query := mmr_query mmr; results := mmr_results mmr;
            result_metadata := OfMMR (mmr_metadata mmr) |}, w)) /\
  (orDefault (opt_useReranking options) true = true ->
   mmr_results mmr <> [] ->
   alwaysFails cohere_rerank ->
   exists message w',
     retrieveWithMMRAndRerank svc search cohere_rerank rerankingService this
       query options w
     = (Throw ("Complete retrieval failed: Reranking failed: " ++ message), w')).
Proof.
  intro Hmmr. split.
  - intro Hskip.
    unfold retrieveWithMMRAndRerank, tryCatch, await, ofResult, resolve.
    rewrite Hmmr.
    destruct Hskip as [-> | ->]; [reflexivity|].
    cbn [length Nat.eqb]. now rewrite orb_true_r.
  - intros Hon Hne Hfail.
    unfold retrieveWithMMRAndRerank, tryCatch, await, ofResult, reject.
    rewrite Hmmr, Hon.
    destruct (mmr_results mmr) as [|r rest] eqn:Hres; [contradiction|].
    cbn [negb orb length Nat.eqb].
    match goal with
    | |- context [rerankChunks ?c ?t ?q ?cs ?o ?w0] =>
        destruct (rerankChunks_alwaysFails q cs o w0 Hfail)
          as (message & w' & ->)
    end.
    exists message, w'. reflexivity.
Qed.

End PipelineFailure.

(** C1, as stated, fails: with two MMR results in hand and the reranker
    down, the complete pipeline throws after three attempts; it does not
    return the MMR results. *)
Lemma rerank_failure_is_fatal_counterexample :
  (exists mmr,
     retrieveWithMMR testEmbeddingService twoRows newVectorRetriever
       "what is alpha" (mmrOptions newVectorRetriever noOptions) = Ok mmr /\
     map id (mmr_results mmr) = ["a"; "b"]) /\
  retrieveWithMMRAndRerank testEmbeddingService twoRows failingReranker
    newRerankingService newVectorRetriever "what is alpha" noOptions initialWorld
  = (Throw "Complete retrieval failed: Reranking failed: Cohere API error: service unavailable",
     {| rerankCalls := 3; delays := [1000; 2000] |}).
Proof.
  split; [|vm_compute; reflexivity].
  eexists. split; vm_compute; reflexivity.
Qed.

Lemma failingReranker_alwaysFails : alwaysFails failingReranker.
Proof.
  intros calls request. now exists "service unavailable".
Qed.

Lemma rerank_failure_propagates_witness :
  exists message w',
    retrieveWithMMRAndRerank testEmbeddingService twoRows failingReranker
      newRerankingService newVectorRetriever "what is alpha" noOptions
      initialWorld
    = (Throw ("Complete retrieval failed: Reranking failed: " ++ message), w').
Proof.
  destruct (retrieveWithMMR testEmbeddingService twoRows newVectorRetriever
              "what is alpha" (mmrOptions newVectorRetriever noOptions))
    as [mmr|message] eqn:Hmmr; [|vm_compute in Hmmr; discriminate].
  apply (proj2 (rerank_failure_propagates testEmbeddingService twoRows
                  failingReranker newRerankingService newVectorRetriever
                  "what is alpha" noOptions initialWorld mmr Hmmr)).
  - reflexivity.
  - vm_compute in Hmmr. inversion Hmmr. discriminate.
  - exact failingReranker_alwaysFails.
Defined.

Lemma enrichment_id_and_content_witness :
  Forall (fun o => exists c, In c [chunkA; chunkB; chunkC] /\
                             id o = id c /\ content o = content c)
    [chunkA; withMmrScore chunkC (12 # 40)].
Proof.
  apply (proj1 (enrichment_id_and_content testEmbeddingService newRerankingService)
           [1%Q; 0%Q] [chunkA; chunkB; chunkC] 2 (1 # 2)).
  reflexivity.
Defined.

(** * Further properties of the code *)

(** ** reciprocalRankFusion: ids, scores and order *)

Section FusionExtras.

Context {A : Type}.
Variable getId : A -> string.

Lemma mapSet_keys_iff (key : string) (value : Fused A) (m : ScoreMap A) k :
  In k (map fst (mapSet key value m)) <-> k = key \/ In k (map fst m).
Proof.
  split; [apply mapSet_keys|].
  induction m as [|[k0 v0] rest IH]; simpl.
  - intros [-> | []]. now left.
  - destruct (String.eqb k0 key) eqn:E; simpl.
    + apply String.eqb_eq in E. subst k0. intros [-> | [H | H]]; auto.
    + intros [-> | [H | H]]; auto.
Qed.

Lemma denseLoop_keys (denseWeight k : Q) (denseResults : list A) :
  forall index m key,
    In key (map fst (denseLoop getId denseWeight k denseResults index m)) <->
    In key (map fst m) \/ In key (map getId denseResults).
Proof.
  induction denseResults as [|r rest IH]; intros index m key; simpl.
  - tauto.
  - rewrite IH, mapSet_keys_iff. intuition.
Qed.

Lemma sparseLoop_keys (sparseWeight k : Q) (sparseResults : list A) :
  forall index m key,
    In key (map fst (sparseLoop getId sparseWeight k sparseResults index m)) <->
    In key (map fst m) \/ In key (map getId sparseResults).
Proof.
  induction sparseResults as [|r rest IH]; intros index m key; simpl.
  - tauto.
  - rewrite IH.
    destruct (mapGet (getId r) m); rewrite mapSet_keys_iff; intuition.
Qed.

Lemma mapOk_ids (m : ScoreMap A) :
  mapOk getId m ->
  map (fun f => getId (fusedResult f)) (map snd m) = map fst m.
Proof.
  intros [_ Hid]. induction m as [|[k v] rest IH]; simpl; [reflexivity|].
  rewrite (Hid k v) by now left.
  f_equal. apply IH. intros key value Hin. apply Hid. now right.
Qed.

(** X1. The fused list holds every id of the two input lists exactly once,
    and no other id. *)
Theorem reciprocalRankFusion_ids (denseResults sparseResults : list A)
    (denseWeight sparseWeight k : Q) :
  let fused :=
    reciprocalRankFusion getId denseResults sparseResults
      denseWeight sparseWeight k in
  NoDup (map (fun f => getId (fusedResult f)) fused) /\
  forall key,
    In key (map (fun f => getId (fusedResult f)) fused) <->
    In key (map getId denseResults) \/ In key (map getId sparseResults).
Proof.
  intro fused.
  pose proof (fuseScores_ok getId denseResults sparseResults
                denseWeight sparseWeight k) as Hok.
  assert (Hperm :
    Permutation (map (fun f => getId (fusedResult f)) fused)
      (map fst (fuseScores getId denseResults sparseResults
                  denseWeight sparseWeight k))).
  { unfold fused, reciprocalRankFusion.
    rewrite <- (mapOk_ids _ Hok).
    apply Permutation_map, sortDescBy_Permutation. }
  split.
  - eapply Permutation_NoDup; [symmetry; exact Hperm | exact (proj1 Hok)].
  - intro key. split.
    + intro Hin. apply (Permutation_in _ Hperm) in Hin.
      unfold fuseScores in Hin.
      apply sparseLoop_keys in Hin as [Hin | Hin]; [|now right].
      apply denseLoop_keys in Hin as [[] | Hin]. now left.
    + intro Hin. apply (Permutation_in _ (Permutation_sym Hperm)).
      unfold fuseScores. apply sparseLoop_keys.
      destruct Hin as [Hin | Hin]; [left | now right].
      apply denseLoop_keys. now right.
Qed.

(** X2. For lists of distinct ids, every fused record carries its 1-based
    rank in each list (none when absent from it) and the sum of
    [denseWeight / (k + rank)] and [sparseWeight / (k + rank)] over the lists
    that hold it. *)
Theorem reciprocalRankFusion_scores (denseResults sparseResults : list A)
    (denseWeight sparseWeight k : Q) (f : Fused A) :
  distinctIds getId denseResults ->
  distinctIds getId sparseResults ->
  In f (reciprocalRankFusion getId denseResults sparseResults
          denseWeight sparseWeight k) ->
  let key := getId (fusedResult f) in
  denseRank f = option_map (fun p => fst p + 1) (findById getId key denseResults 0) /\
  sparseRank f = option_map (fun p => fst p + 1) (findById getId key sparseResults 0) /\
  Some (rrfScore f) =
    specFusedScore getId denseResults sparseResults denseWeight sparseWeight k key.
Proof.
  intros Hd Hs Hin key.
  apply reciprocalRankFusion_In in Hin. fold key in Hin.
  pose proof (fuseScores_spec getId denseResults sparseResults
                denseWeight sparseWeight k key Hd Hs) as Hspec.
  rewrite Hin in Hspec. simpl in Hspec.
  unfold fuseScores in Hin.
  rewrite (sparseLoop_get getId sparseWeight k key sparseResults Hs) in Hin.
  rewrite (denseLoop_get getId denseWeight k key denseResults Hd) in Hin.
  destruct (findById getId key denseResults 0) as [[i r]|];
    destruct (findById getId key sparseResults 0) as [[j r']|];
    simpl in Hin; try discriminate; inversion Hin; subst f; auto.
Qed.

Lemma sortDescBy_sorted_fixed {B : Type} (score : B -> Q) (arr : list B) :
  StronglySorted (fun a b => (score b <= score a)%Q) arr ->
  sortDescBy score arr = arr.
Proof.
  induction 1 as [|x rest Hrest IH Hx]; simpl; [reflexivity|].
  rewrite IH. destruct rest as [|y more]; [reflexivity|]. simpl.
  inversion Hx as [|? ? Hyx _]; subst.
  now rewrite (proj2 (Qgtb_false _ _) Hyx).
Qed.

Lemma mapSet_absent (key : string) (value : Fused A) (m : ScoreMap A) :
  ~ In key (map fst m) -> mapSet key value m = m ++ [(key, value)].
Proof.
  induction m as [|[k0 v0] rest IH]; simpl; intro Hnot; [reflexivity|].
  destruct (String.eqb k0 key) eqn:E.
  - apply String.eqb_eq in E. exfalso. apply Hnot. now left.
  - f_equal. apply IH. intro H. apply Hnot. now right.
Qed.

Lemma denseLoop_distinct (denseWeight k : Q) (denseResults : list A) :
  forall index m,
    distinctIds getId denseResults ->
    (forall key, In key (map getId denseResults) -> ~ In key (map fst m)) ->
    map snd (denseLoop getId denseWeight k denseResults index m) =
    map snd m ++ mapi (denseRecord denseWeight k) index denseResults.
Proof.
  unfold distinctIds.
  induction denseResults as [|r rest IH]; intros index m Hnd Hfresh; simpl.
  - now rewrite app_nil_r.
  - apply NoDup_cons_iff in Hnd as [Hnotin Hnd].
    rewrite IH; [|exact Hnd|].
    + rewrite mapSet_absent by (apply Hfresh; now left).
      rewrite map_app, <- app_assoc. reflexivity.
    + intros key Hkey Hin. apply mapSet_keys in Hin as [-> | Hin].
      * contradiction.
      * apply (Hfresh key); [now right | exact Hin].
Qed.

Lemma rankNumber_mono (k : Q) (i j : nat) :
  i <= j -> (rankNumber k i <= rankNumber k j)%Q.
Proof.
  intro Hij. unfold rankNumber.
  assert (H : (inject_Z (Z.of_nat i) <= inject_Z (Z.of_nat j))%Q)
    by (rewrite <- Zle_Qle; lia).
  lra.
Qed.

Lemma Qdiv_le_larger (w r1 r2 : Q) :
  (0 <= w)%Q -> (0 < r1)%Q -> (r1 <= r2)%Q -> (w / r2 <= w / r1)%Q.
Proof.
  intros Hw H1 H12.
  assert (H2 : (0 < r2)%Q) by lra.
  assert (Hinv : (/ r2 <= / r1)%Q).
  { apply Qle_lteq in H12 as [Hlt | Heq].
    - apply Qlt_le_weak. exact (proj1 (Qinv_lt_contravar r1 r2 H1 H2) Hlt).
    - rewrite Heq. apply Qle_refl. }
  unfold Qdiv. rewrite !(Qmult_comm w).
  now apply Qmult_le_compat_r.
Qed.

Lemma denseRecords_sorted (denseWeight k : Q) (denseResults : list A) :
  (0 <= denseWeight)%Q -> (0 <= k)%Q ->
  forall index,
    StronglySorted (fun a b => (rrfScore b <= rrfScore a)%Q)
      (mapi (denseRecord denseWeight k) index denseResults) /\
    Forall (fun f => (rrfScore f <= denseWeight / rankNumber k index)%Q)
      (mapi (denseRecord denseWeight k) index denseResults).
Proof.
  intros Hw Hk.
  induction denseResults as [|r rest IH]; intro index; simpl.
  - split; constructor.
  - destruct (IH (S index)) as [Hsorted Hbound].
    assert (Hstep : (denseWeight / rankNumber k (S index)
                     <= denseWeight / rankNumber k index)%Q).
    { apply Qdiv_le_larger; [exact Hw | now apply rankNumber_pos |].
      apply rankNumber_mono. lia. }
    split.
    + constructor; [exact Hsorted|].
      eapply Forall_impl; [|exact Hbound]. simpl. intros f Hf. lra.
    + constructor; [simpl; lra|].
      eapply Forall_impl; [|exact Hbound]. simpl. intros f Hf. lra.
Qed.

(** X3. With no sparse result, a dense list of distinct ids, a dense weight
    that is not negative and [k >= 0], the fusion returns the dense results
    in their order, the one at index [i] with score
    [denseWeight / (k + i + 1)], dense rank [i + 1] and no sparse rank. *)
Theorem reciprocalRankFusion_dense_only (denseResults : list A)
    (denseWeight sparseWeight k : Q) :
  distinctIds getId denseResults ->
  (0 <= denseWeight)%Q ->
  (0 <= k)%Q ->
  reciprocalRankFusion getId denseResults [] denseWeight sparseWeight k
  = mapi (denseRecord denseWeight k) 0 denseResults.
Proof.
  intros Hd Hw Hk. unfold reciprocalRankFusion, fuseScores. simpl.
  rewrite denseLoop_distinct; [|exact Hd | intros key _ []].
  simpl. apply sortDescBy_sorted_fixed.
  apply (denseRecords_sorted denseWeight k denseResults Hw Hk 0).
Qed.


End FusionExtras.

(** ** removeDuplicates and multiStepRetrieve *)

Lemma existsb_eqb_In (key : string) (seen : list string) :
  existsb (String.eqb key) seen = true <-> In key seen.
Proof.
  rewrite existsb_exists. split.
  - intros (x & Hin & Heq). apply String.eqb_eq in Heq. now subst.
  - intro Hin. exists key. split; [exact Hin | apply String.eqb_refl].
Qed.

Lemma removeDuplicatesFrom_spec (results : list Chunk) :
  forall seen,
    NoDup (map id (removeDuplicatesFrom seen results)) /\
    (forall key, In key (map id (removeDuplicatesFrom seen results)) ->
                 ~ In key seen) /\
    (forall key,
       find (fun r => String.eqb (id r) key) (removeDuplicatesFrom seen results)
       = if existsb (String.eqb key) seen then None
         else find (fun r => String.eqb (id r) key) results).
Proof.
  induction results as [|r rest IH]; intro seen; simpl.
  - repeat split; [constructor | intros key [] |].
    intro key. now destruct (existsb (String.eqb key) seen).
  - destruct (existsb (String.eqb (id r)) seen) eqn:Eseen.
    + destruct (IH seen) as (Hnd & Hfresh & Hfind).
      repeat split; auto.
      intro key. rewrite Hfind.
      destruct (existsb (String.eqb key) seen) eqn:Ekey; [reflexivity|].
      destruct (String.eqb (id r) key) eqn:E; [|reflexivity].
      apply String.eqb_eq in E. subst key. congruence.
    + destruct (IH (id r :: seen)) as (Hnd & Hfresh & Hfind).
      assert (Hnotseen : ~ In (id r) seen).
      { intro H. apply existsb_eqb_In in H. congruence. }
      repeat split.
      * simpl. constructor; [|exact Hnd].
        intro Hin. apply (Hfresh _ Hin). now left.
      * intros key [<- | Hin]; [exact Hnotseen|].
        intro Hs. apply (Hfresh _ Hin). now right.
      * intro key. simpl. rewrite Hfind. simpl.
        rewrite (String.eqb_sym key (id r)).
        destruct (String.eqb (id r) key) eqn:E; simpl.
        -- apply String.eqb_eq in E. subst key. now rewrite Eseen.
        -- reflexivity.
Qed.

Lemma removeDuplicatesFrom_distinct (results : list Chunk) :
  forall seen,
    NoDup (map id results) ->
    (forall key, In key (map id results) -> ~ In key seen) ->
    removeDuplicatesFrom seen results = results.
Proof.
  induction results as [|r rest IH]; intros seen Hnd Hfresh; simpl;
    [reflexivity|].
  simpl in Hnd. apply NoDup_cons_iff in Hnd as [Hnotin Hnd].
  destruct (existsb (String.eqb (id r)) seen) eqn:Eseen.
  - apply existsb_eqb_In in Eseen. exfalso.
    apply (Hfresh (id r)); [now left | exact Eseen].
  - f_equal. apply IH; [exact Hnd|].
    intros key Hin [<- | Hs]; [contradiction|].
    apply (Hfresh key); [now right | exact Hs].
Qed.

(** X5. [removeDuplicates] returns chunks of distinct ids; under every id it
    keeps the first chunk of the input with that id (so no id is lost); and
    it returns a list of distinct ids as it is. *)
Theorem removeDuplicates_first_wins (results : list Chunk) :
  NoDup (map id (removeDuplicates results)) /\
  (forall key,
     find (fun r => String.eqb (id r) key) (removeDuplicates results)
     = find (fun r => String.eqb (id r) key) results) /\
  (NoDup (map id results) -> removeDuplicates results = results).
Proof.
  unfold removeDuplicates.
  destruct (removeDuplicatesFrom_spec results []) as (Hnd & _ & Hfind).
  repeat split; auto.
  intro Hdistinct. apply removeDuplicatesFrom_distinct; auto.
Qed.

Lemma removeDuplicatesFrom_length (results : list Chunk) :
  forall seen, length (removeDuplicatesFrom seen results) <= length results.
Proof.
  induction results as [|r rest IH]; intro seen; simpl; [lia|].
  destruct (existsb (String.eqb (id r)) seen).
  - specialize (IH seen). lia.
  - specialize (IH (id r :: seen)). simpl. lia.
Qed.

Lemma NoDup_firstn {B : Type} (n : nat) (l : list B) :
  NoDup l -> NoDup (firstn n l).
Proof.
  intro H. rewrite <- (firstn_skipn n l) in H.
  eapply NoDup_app_remove_r. exact H.
Qed.

Lemma StronglySorted_firstn {B : Type} (R : B -> B -> Prop) (n : nat) (l : list B) :
  StronglySorted R l -> StronglySorted R (firstn n l).
Proof.
  intro H. revert n. induction H as [|x rest Hrest IH Hx]; intro n.
  - rewrite firstn_nil. constructor.
  - destruct n as [|n]; simpl; [constructor|].
    constructor; [apply IH|].
    rewrite Forall_forall in Hx |- *. intros y Hy. apply Hx.
    rewrite <- (firstn_skipn n rest). apply in_or_app. now left.
Qed.

Section MultiStepProperties.

Variable svc : EmbeddingService.
Variable search :
  Embedding -> Q -> nat -> option string -> option string -> result (list Row).
Variable this : VectorRetriever.

(** X6. Whatever [multiStepRetrieve] returns holds at most [finalK] chunks,
    of distinct ids, in descending order of similarity, and its metadata
    counts them; a failure of a step is rethrown behind "Multi-step retrieval
    failed: "; with [steps = 0] no step runs and the result is empty. *)
Theorem multiStepRetrieve_results (query : string) (steps : option nat)
    (options : RetrievalOptions) :
  (forall r,
     multiStepRetrieve svc search this query steps options = Ok r ->
     length (ms_results r)
       <= orDefault (opt_finalK options) (defaultFinalK this) /\
     NoDup (map id (ms_results r)) /\
     StronglySorted (fun a b => (similarity b <= similarity a)%Q) (ms_results r) /\
     ms_finalResults (ms_metadata r) = length (ms_results r) /\
     ms_finalResults (ms_metadata r) <= ms_uniqueResults (ms_metadata r) /\
     ms_uniqueResults (ms_metadata r) <= ms_totalCandidates (ms_metadata r)) /\
  (forall message,
     multiStepRetrieve svc search this query steps options = Throw message ->
     exists cause,
       message = ("Multi-step retrieval failed: " ++ cause)%string) /\
  (steps = Some 0 ->
   exists r,
     multiStepRetrieve svc search this query steps options = Ok r /\
     ms_results r = []).
Proof.
  unfold multiStepRetrieve.
  set (finalK := orDefault (opt_finalK options) (defaultFinalK this)).
  repeat split.
  - destruct (multiStepLoop svc search this (orDefault steps 2) query options
                (ceilDiv finalK (orDefault steps 2)) query []) as [all|msg];
      simpl in H; [|discriminate].
    inversion H; subst r. simpl. apply firstn_le_length.
  - destruct (multiStepLoop svc search this (orDefault steps 2) query options
                (ceilDiv finalK (orDefault steps 2)) query []) as [all|msg];
      simpl in H; [|discriminate].
    inversion H; subst r. simpl.
    rewrite <- firstn_map. apply NoDup_firstn.
    eapply Permutation_NoDup.
    + symmetry. apply Permutation_map, sortDescBy_Permutation.
    + apply (proj1 (removeDuplicatesFrom_spec all [])).
  - destruct (multiStepLoop svc search this (orDefault steps 2) query options
                (ceilDiv finalK (orDefault steps 2)) query []) as [all|msg];
      simpl in H; [|discriminate].
    inversion H; subst r. simpl.
    apply StronglySorted_firstn, sortDescBy_sorted.
  - destruct (multiStepLoop svc search this (orDefault steps 2) query options
                (ceilDiv finalK (orDefault steps 2)) query []) as [all|msg];
      simpl in H; [|discriminate].
    inversion H; subst r. reflexivity.
  - destruct (multiStepLoop svc search this (orDefault steps 2) query options
                (ceilDiv finalK (orDefault steps 2)) query []) as [all|msg];
      simpl in H; [|discriminate].
    inversion H; subst r. simpl.
    rewrite length_firstn.
    rewrite (Permutation_length (sortDescBy_Permutation similarity _)). lia.
  - destruct (multiStepLoop svc search this (orDefault steps 2) query options
                (ceilDiv finalK (orDefault steps 2)) query []) as [all|msg];
      simpl in H; [|discriminate].
    inversion H; subst r. simpl. apply removeDuplicatesFrom_length.
  - intros message H.
    destruct (multiStepLoop svc search this (orDefault steps 2) query options
                (ceilDiv finalK (orDefault steps 2)) query []) as [all|msg];
      simpl in H; [discriminate|].
    inversion H. now exists msg.
  - intros ->. simpl. eexists. split; [reflexivity|]. simpl.
    now rewrite firstn_nil.
Qed.

End MultiStepProperties.

(** ** RerankingService: validation, documents, merged results *)

Lemma truthy_false (s : string) : truthy s = false <-> s = "".
Proof.
  destruct s; simpl; split; congruence.
Qed.


Section RerankExtras.

Variable cohere_rerank : nat -> RerankRequest -> result RerankResponse.
Variable this : RerankingService.


Lemma substring_length (n : nat) (s : string) :
  String.length (String.substring 0 n s) = Nat.min n (String.length s).
Proof.
  revert s. induction n as [|n IH]; intro s.
  - destruct s; reflexivity.
  - destruct s as [|c s]; simpl; [reflexivity|]. now rewrite IH.
Qed.

Lemma append_length (s1 s2 : string) :
  String.length (s1 ++ s2) = String.length s1 + String.length s2.
Proof.
  induction s1 as [|c s1 IH]; simpl; [reflexivity|]. now rewrite IH.
Qed.

(** X8. [prepareDocuments] makes one document per chunk, in order.  With
    truncation on, no document text is longer than [maxChunkLength + 3]
    characters, and the text of a chunk whose content fits in
    [maxChunkLength] is that content unchanged; with truncation off every
    content is sent whole. *)
Theorem prepareDocuments_bounds (chunks : list Chunk) (truncateChunks : bool) :
  length (prepareDocuments this chunks truncateChunks) = length chunks /\
  (truncateChunks = true ->
   Forall (fun d => String.length (doc_text d) <= maxChunkLength this + 3)
     (prepareDocuments this chunks truncateChunks)) /\
  Forall2
    (fun chunk d =>
       content chunk <> "" ->
       (truncateChunks = false \/
        String.length (content chunk) <= maxChunkLength this) ->
       doc_text d = content chunk)
    chunks (prepareDocuments this chunks truncateChunks).
Proof.
  unfold prepareDocuments. repeat split.
  - apply length_map.
  - intros ->. apply Forall_forall. intros d Hd.
    apply in_map_iff in Hd as (chunk & <- & _).
    unfold prepareDocument. simpl.
    match goal with
    | |- context [(maxChunkLength this <? String.length ?c)%nat] =>
        destruct (maxChunkLength this <? String.length c)%nat eqn:E
    end.
    + rewrite append_length, substring_length. simpl. lia.
    + apply Nat.ltb_ge in E. lia.
  - induction chunks as [|chunk rest IH]; simpl; constructor; [|exact IH].
    intros Hcontent Hfits. unfold prepareDocument. simpl.
    destruct (truthy (content chunk)) eqn:Et.
    2:{ apply truthy_false in Et. contradiction. }
    destruct Hfits as [-> | Hfits]; [reflexivity|].
    apply Nat.ltb_ge in Hfits. rewrite Hfits.
    now rewrite andb_false_r.
Qed.

Lemma processLoop_positions (originalChunks : list Chunk)
    (includeOriginalRank : bool) (items : list RerankResultItem) :
  forall newRank out,
    processLoop this originalChunks includeOriginalRank newRank items = Ok out ->
    length out = length items /\
    forall pos item o,
      nth_error items pos = Some item ->
      nth_error out pos = Some o ->
      rerankRank o = Some (newRank + pos + 1) /\
      rerankScore o = Some (relevanceScore item) /\
      (includeOriginalRank = true ->
       originalRank o = Some (index item + 1) /\
       rankImprovement o
       = Some (Z.of_nat (index item) - Z.of_nat (newRank + pos))%Z).
Proof.
  induction items as [|item rest IH]; intros newRank out Hrun; simpl in Hrun.
  - inversion Hrun; subst. split; [reflexivity|].
    intros [|pos] item o H; discriminate.
  - unfold processRerankResult in Hrun.
    destruct (nth_error originalChunks (index item)) as [c|] eqn:Hnth.
    2:{ destruct (truthy (returnedText item)); discriminate. }
    cbn [bind] in Hrun.
    destruct (processLoop this originalChunks includeOriginalRank (S newRank) rest)
      as [chunks|msg] eqn:Hrest; [|discriminate].
    cbn [bind] in Hrun. inversion Hrun; subst out. clear Hrun.
    destruct (IH _ _ Hrest) as [Hlen Hpos].
    split; [simpl; now rewrite Hlen|].
    intros [|pos] item' o Hitem Ho; simpl in Hitem, Ho.
    + inversion Hitem; inversion Ho; subst. simpl.
      rewrite Nat.add_0_r. split; [reflexivity|]. split; [reflexivity|].
      intros ->. split; [reflexivity|]. f_equal. lia.
    + destruct (Hpos pos item' o Hitem Ho) as (Hrank & Hscore & Horig).
      split; [rewrite Hrank; f_equal; lia|]. split; [exact Hscore|].
      intro Hinc. destruct (Horig Hinc) as [Ho1 Ho2].
      split; [exact Ho1|]. rewrite Ho2. f_equal. lia.
Qed.

Lemma processLoop_defined (originalChunks : list Chunk)
    (includeOriginalRank : bool) (items : list RerankResultItem) :
  forall newRank,
    Forall (fun item => index item < length originalChunks) items <->
    exists out,
      processLoop this originalChunks includeOriginalRank newRank items = Ok out.
Proof.
  induction items as [|item rest IH]; intro newRank; simpl.
  - split; [eauto | constructor].
  - unfold processRerankResult.
    destruct (nth_error originalChunks (index item)) as [c|] eqn:Hnth.
    + cbn [bind]. split.
      * intro Hall. inversion Hall; subst.
        apply (IH (S newRank)) in H2 as [out ->]. simpl. eauto.
      * intros [out Hout].
        destruct (processLoop this originalChunks includeOriginalRank
                    (S newRank) rest) as [chunks|msg] eqn:Hrest; [|discriminate].
        constructor; [eapply nth_error_lt; eauto|].
        apply (IH (S newRank)). eauto.
    + apply nth_error_None in Hnth. split.
      * intro Hall. inversion Hall; subst. lia.
      * intros [out Hout]. destruct (truthy (returnedText item)); discriminate.
Qed.

(** X9. [processRerankResults] returns exactly when every index of the
    response points into the original chunks (an index out of range is a
    thrown TypeError).  It then returns one chunk per item of the response,
    in the order of the response: the one at position [p] has
    [rerankRank = p + 1] and the item's score, and with [includeOriginalRank]
    its [originalRank] is the item's index plus one and its
    [rankImprovement] is the original position minus the new one. *)
Theorem processRerankResults_ranks (rerankResponse : RerankResponse)
    (originalChunks : list Chunk) (includeOriginalRank : bool) :
  (Forall (fun item => index item < length originalChunks)
     (response_results rerankResponse) <->
   exists reranked,
     processRerankResults this rerankResponse originalChunks includeOriginalRank
     = Ok reranked) /\
  (forall reranked,
     processRerankResults this rerankResponse originalChunks includeOriginalRank
     = Ok reranked ->
     length reranked = length (response_results rerankResponse) /\
     forall pos item o,
       nth_error (response_results rerankResponse) pos = Some item ->
       nth_error reranked pos = Some o ->
       rerankRank o = Some (pos + 1) /\
       rerankScore o = Some (relevanceScore item) /\
       (includeOriginalRank = true ->
        originalRank o = Some (index item + 1) /\
        rankImprovement o = Some (Z.of_nat (index item) - Z.of_nat pos)%Z)).
Proof.
  unfold processRerankResults. split.
  - apply processLoop_defined.
  - intros reranked Hrun. apply processLoop_positions in Hrun. exact Hrun.
Qed.

End RerankExtras.

(** ** batchRerank: one failure does not stop the batch *)

Section BatchProperties.

Variable cohere_rerank : nat -> RerankRequest -> result RerankResponse.
Variable this : RerankingService.

Lemma rerankChunks_throws_prefixed (query : string) (chunks : list Chunk)
    (options : RerankOptions) (w w' : World) (message : string) :
  rerankChunks cohere_rerank this query chunks options w = (Throw message, w') ->
  exists cause, message = ("Reranking failed: " ++ cause)%string.
Proof.
  unfold rerankChunks, tryCatch, reject.
  match goal with
  | |- context [match ?body w with _ => _ end] => destruct (body w) as [[out|m] w0]
  end; intro H; inversion H. now exists m.
Qed.

(** The loop on pairs whose queries are strings. *)
Lemma batchLoop_spec (options : RerankOptions) (pairs : list QueryChunkPair) :
  stringQueries pairs ->
  forall i results errors w,
    exists newResults newErrors w',
      batchLoop cohere_rerank this pairs i options results errors w
      = (Ok (results ++ newResults, errors ++ newErrors), w') /\
      Permutation (map success_index newResults ++ map error_index newErrors)
        (seq i (length pairs)) /\
      Forall (fun e => exists cause,
                error_message e = ("Reranking failed: " ++ cause)%string)
        newErrors.
Proof.
  intro Hstrings.
  induction Hstrings as [|item rest [q Hq] _ IH]; intros i results errors w.
  - exists [], [], w. simpl. unfold resolve. rewrite !app_nil_r.
    repeat split; constructor.
  - cbn [batchLoop]. rewrite Hq. cbn [rerankChunksOf querySubstring].
    unfold await at 1. unfold tryCatch at 1. unfold await at 1.
    destruct (rerankChunks cohere_rerank this q (pair_chunks item) options w)
      as [[out|message] w1] eqn:Hrun.
    + assert (Hstep : exists w2,
                (match rest with
                 | _ :: _ =>
                     do _ <- delay 100;
                     resolve (results ++ [ {| success_index := i;
                                              success_output := out |} ], errors)
                 | [] =>
                     resolve (results ++ [ {| success_index := i;
                                              success_output := out |} ], errors)
                 end) w1
                = (Ok (results ++ [ {| success_index := i;
                                       success_output := out |} ], errors), w2)).
      { destruct rest; [eexists; reflexivity|].
        unfold await, delay, resolve. eexists; reflexivity. }
      destruct Hstep as [w2 ->]. cbn [fst snd].
      destruct (IH (S i)
                  (results ++ [ {| success_index := i; success_output := out |} ])
                  errors w2)
        as (rs & es & w' & -> & Hperm & Hall).
      exists ({| success_index := i; success_output := out |} :: rs), es, w'.
      rewrite <- app_assoc. repeat split; auto.
      simpl. now constructor.
    + unfold await, ofResult, resolve. cbn [fst snd].
      destruct (IH (S i) results
                  (errors ++ [ {| error_index := i;
                                  error_query := String.substring 0 50 q;
                                  error_message := message;
                                  error_metadata := pair_metadata item |} ]) w1)
        as (rs & es & w' & -> & Hperm & Hall).
      exists rs,
        ({| error_index := i;
            error_query := String.substring 0 50 q;
            error_message := message;
            error_metadata := pair_metadata item |} :: es), w'.
      rewrite <- app_assoc. repeat split; auto.
      * simpl. apply Permutation_sym.
        apply Permutation_cons_app. now apply Permutation_sym.
      * constructor; [|exact Hall]. simpl.
        eapply rerankChunks_throws_prefixed; eauto.
Qed.

(** The loop up to the first pair whose query is not a string. *)
Lemma batchLoop_not_a_string (options : RerankOptions)
    (before after : list QueryChunkPair) (item : QueryChunkPair)
    (typeError : string) :
  stringQueries before ->
  pair_query item = NotAString typeError ->
  forall i results errors w,
    exists w',
      batchLoop cohere_rerank this (before ++ item :: after) i options
        results errors w = (Throw typeError, w').
Proof.
  intros Hstrings Hitem. induction Hstrings as [|p rest Hp _ IH];
    intros i results errors w.
  - cbn [app batchLoop]. rewrite Hitem. cbn [rerankChunksOf querySubstring].
    unfold await, tryCatch, reject, ofResult. eexists. reflexivity.
  - destruct (batchLoop_spec options [p] (Forall_cons _ Hp (Forall_nil _))
                i results errors w) as (rs & es & w1 & Hrun & _).
    change ((p :: rest) ++ item :: after) with (p :: rest ++ item :: after).
    cbn [batchLoop] in Hrun |- *.
    unfold await at 1. unfold await at 1 in Hrun.
    assert (Hsame :
      forall tail : list QueryChunkPair, tail <> [] ->
        exists acc w2,
          tryCatch
            (do result <-
               rerankChunksOf cohere_rerank this (pair_query p) (pair_chunks p)
                 options;
             match tail with
             | _ :: _ =>
                 do _ <- delay 100;
                 resolve (results ++ [ {| success_index := i;
                                          success_output := result |} ], errors)
             | [] =>
                 resolve (results ++ [ {| success_index := i;
                                          success_output := result |} ], errors)
             end)
            (fun message =>
               do shown <- ofResult (querySubstring (pair_query p) 50);
               resolve
                 (results,
                  errors ++ [ {| error_index := i; error_query := shown;
                                 error_message := message;
                                 error_metadata := pair_metadata p |} ])) w
          = (Ok acc, w2)).
    { intros tail Htail. destruct Hp as [q Hq]. rewrite Hq.
      cbn [rerankChunksOf querySubstring].
      unfold tryCatch, await, ofResult, resolve, delay.
      destruct (rerankChunks cohere_rerank this q (pair_chunks p) options w)
        as [[out|message] w2]; destruct tail; try congruence;
        eexists; eexists; reflexivity. }
    destruct (Hsame (rest ++ item :: after)) as (acc & w2 & ->).
    { destruct rest; discriminate. }
    apply IH.
Qed.

(** X10. [batchRerank] keeps the failure of one [rerankChunks] from the
    other pairs, as long as every query is a string: it returns, every pair
    ends either in [results] or in [errors] under its index in the input,
    the two counts add up to the number of pairs, and each error carries
    the message of the failed call, "Reranking failed: ...".  A query that
    is not a string is not kept apart: at the first such pair the whole call
    throws the TypeError of [query.substring], and the results of the pairs
    before it are lost. *)
Theorem batchRerank_isolates_errors (queryChunkPairs : list QueryChunkPair)
    (options : RerankOptions) (w : World) :
  (stringQueries queryChunkPairs ->
   exists out w',
     batchRerank cohere_rerank this queryChunkPairs options w = (Ok out, w') /\
     successful out = length (batch_results out) /\
     failed out = length (batch_errors out) /\
     successful out + failed out = length queryChunkPairs /\
     Permutation
       (map success_index (batch_results out)
        ++ map error_index (batch_errors out))
       (seq 0 (length queryChunkPairs)) /\
     Forall (fun e => exists cause,
               error_message e = ("Reranking failed: " ++ cause)%string)
       (batch_errors out)) /\
  (forall before item after typeError,
     queryChunkPairs = before ++ item :: after ->
     stringQueries before ->
     pair_query item = NotAString typeError ->
     exists w',
       batchRerank cohere_rerank this queryChunkPairs options w
       = (Throw typeError, w')).
Proof.
  split.
  - intro Hstrings.
    destruct (batchLoop_spec options queryChunkPairs Hstrings 0 [] [] w)
      as (rs & es & w' & Hrun & Hperm & Hall).
    unfold batchRerank, await, resolve. rewrite Hrun. simpl.
    eexists. exists w'. split; [reflexivity|]. simpl.
    repeat split; auto.
    apply Permutation_length in Hperm.
    rewrite length_app, !length_map, length_seq in Hperm. exact Hperm.
  - intros before item after typeError -> Hstrings Hitem.
    destruct (batchLoop_not_a_string options before after item typeError
                Hstrings Hitem 0 [] [] w) as [w' Hrun].
    unfold batchRerank, await. rewrite Hrun. eauto.
Qed.

(** With the reranker down every pair of the batch is reported as failed. *)
Lemma batchLoop_alwaysFails (options : RerankOptions)
    (pairs : list QueryChunkPair) :
  alwaysFails cohere_rerank ->
  stringQueries pairs ->
  forall i results errors w,
    exists newErrors w',
      batchLoop cohere_rerank this pairs i options results errors w
      = (Ok (results, errors ++ newErrors), w') /\
      length newErrors = length pairs.
Proof.
  intros Hfail Hstrings.
  induction Hstrings as [|item rest [q Hq] _ IH]; intros i results errors w.
  - exists [], w. simpl. unfold resolve. now rewrite app_nil_r.
  - cbn [batchLoop]. rewrite Hq. cbn [rerankChunksOf querySubstring].
    unfold await at 1. unfold tryCatch at 1. unfold await at 1.
    destruct (rerankChunks_alwaysFails cohere_rerank this q
                (pair_chunks item) options w Hfail) as (message & w1 & ->).
    unfold await, ofResult, resolve. cbn [fst snd].
    match goal with
    | |- context [batchLoop _ _ rest (S i) options results ?errs w1] =>
        destruct (IH (S i) results errs w1) as (es & w' & -> & Hlen)
    end.
    eexists (_ :: es), w'. rewrite <- app_assoc. split; [reflexivity|].
    simpl. now rewrite Hlen.
Qed.

(** X11. When the reranker fails at every call and every query is a
    string, [batchRerank] still returns: no pair succeeds and all are
    counted as failed. *)
Theorem batchRerank_all_failed (queryChunkPairs : list QueryChunkPair)
    (options : RerankOptions) (w : World) :
  alwaysFails cohere_rerank ->
  stringQueries queryChunkPairs ->
  exists out w',
    batchRerank cohere_rerank this queryChunkPairs options w = (Ok out, w') /\
    successful out = 0 /\ batch_results out = [] /\
    failed out = length queryChunkPairs.
Proof.
  intros Hfail Hstrings.
  destruct (batchLoop_alwaysFails options queryChunkPairs Hfail Hstrings
              0 [] [] w) as (es & w' & Hrun & Hlen).
  unfold batchRerank, await, resolve. rewrite Hrun. simpl.
  eexists. exists w'. split; [reflexivity|]. simpl. auto.
Qed.

End BatchProperties.

(** ** cosineSimilarity of the source *)

Lemma cosineLoop_swap (e1 : Embedding) :
  forall e2 d d' n1 n2,
    (d == d')%Q ->
    let '(x, y, z) := cosineLoop e1 e2 (d, n1, n2) in
    let '(x', y', z') := cosineLoop e2 e1 (d', n2, n1) in
    (x == x')%Q /\ y = z' /\ z = y'.
Proof.
  induction e1 as [|a r1 IH]; intros e2 d d' n1 n2 Hd.
  - destruct e2; simpl; auto.
  - destruct e2 as [|b r2]; simpl; [auto|].
    apply IH. rewrite Hd. ring.
Qed.

(** X15. The source's [cosineSimilarity] throws exactly when the two vectors
    differ in length, and it is symmetric in its two arguments. *)
Theorem cosineSimilarity_src_symmetric (e1 e2 : Embedding) :
  (length e1 <> length e2 <->
   cosineSimilarity_src e1 e2 = Throw "Embeddings must have the same dimensions") /\
  sameOutcome (cosineSimilarity_src e1 e2) (cosineSimilarity_src e2 e1).
Proof.
  unfold cosineSimilarity_src. split.
  - destruct (length e1 =? length e2)%nat eqn:E; simpl.
    + apply Nat.eqb_eq in E.
      destruct (cosineLoop e1 e2 (0%Q, 0%Q, 0%Q)) as [[x y] z].
      split; [contradiction | discriminate].
    + apply Nat.eqb_neq in E. tauto.
  - rewrite (Nat.eqb_sym (length e2)).
    destruct (length e1 =? length e2)%nat; simpl; [|reflexivity].
    pose proof (cosineLoop_swap e1 e2 0%Q 0%Q 0%Q 0%Q (Qeq_refl 0)) as Hswap.
    destruct (cosineLoop e1 e2 (0%Q, 0%Q, 0%Q)) as [[x y] z].
    destruct (cosineLoop e2 e1 (0%Q, 0%Q, 0%Q)) as [[x' y'] z'].
    destruct Hswap as (Hx & -> & ->). simpl.
    rewrite Hx, (Qmult_comm (Math_sqrt z')). reflexivity.
Qed.

(** ** formatResults *)

Lemma mapi_length {B C : Type} (f : nat -> B -> C) (arr : list B) :
  forall index, length (mapi f index arr) = length arr.
Proof.
  induction arr as [|x rest IH]; intro index; simpl; [reflexivity|].
  now rewrite IH.
Qed.

Lemma mapi_Forall {B C : Type} (f : nat -> B -> C) (P : C -> Prop) (arr : list B) :
  (forall i x, P (f i x)) -> forall index, Forall P (mapi f index arr).
Proof.
  intro H. induction arr as [|x rest IH]; intro index; simpl; constructor; auto.
Qed.

Lemma mapi_ranks (includeMetadata : bool) (results : list Chunk) :
  forall index,
    map rank (mapi (formatResult includeMetadata) index results)
    = map Some (seq (index + 1) (length results)).
Proof.
  induction results as [|r rest IH]; intro index; simpl; [reflexivity|].
  f_equal. rewrite IH. now rewrite Nat.add_succ_l.
Qed.

(** X16. [formatResults] returns one chunk per result, in order, ranked
    1, 2, ... by position; it keeps the similarity and drops the embedding
    and every score a stage put on the chunk itself; [metadata] is present
    exactly when asked for, and then holds the [mmrScore]. *)
Theorem formatResults_shape (results : list Chunk) (includeMetadata : bool) :
  length (formatResults results includeMetadata) = length results /\
  map rank (formatResults results includeMetadata)
    = map Some (seq 1 (length results)) /\
  map similarity (formatResults results includeMetadata)
    = map similarity results /\
  Forall formatted (formatResults results includeMetadata) /\
  map (fun c => option_map meta_mmrScore (metadata c))
    (formatResults results includeMetadata)
  = map (fun c => if includeMetadata then Some (mmrScore c) else None) results.
Proof.
  unfold formatResults. repeat split.
  - apply mapi_length.
  - apply (mapi_ranks includeMetadata results 0).
  - apply mapi_map. reflexivity.
  - apply mapi_Forall. intros i x. repeat split.
  - apply mapi_map. intros i x. simpl. now destruct includeMetadata.
Qed.

(** ** retrieveWithMMR on the rows of the vector store *)


Section RetrievalFromStore.

Variable svc : EmbeddingService.
Variable search :
  Embedding -> Q -> nat -> option string -> option string -> result (list Row).
Variable this : VectorRetriever.








(** X19. A failure of the embedding provider reaches the caller of
    [retrieveWithMMR] as "Vector retrieval failed: " followed by its message;
    a failure of the vector store as "Vector retrieval failed: Database query
    failed: " followed by its message. *)
Theorem retrieveWithMMR_errors (query : string) (options : RetrievalOptions) :
  let topK := orDefault (opt_topK options) (defaultTopK this) in
  let threshold := orDefault (opt_threshold options) (defaultThreshold this) in
  (forall message,
     generateEmbedding svc query = Throw message ->
     retrieveWithMMR svc search this query options
     = Throw ("Vector retrieval failed: " ++ message)) /\
  (forall queryEmbedding message,
     generateEmbedding svc query = Ok queryEmbedding ->
     search queryEmbedding threshold topK (opt_source options)
       (opt_section options) = Throw message ->
     retrieveWithMMR svc search this query options
     = Throw ("Vector retrieval failed: Database query failed: " ++ message)).
Proof.
  intros topK threshold. split.
  - intros message Hembed. unfold retrieveWithMMR. now rewrite Hembed.
  - intros queryEmbedding message Hembed Hsearch.
    unfold retrieveWithMMR, retrieveTopKCandidates.
    fold topK threshold. rewrite Hembed. cbn [bind]. now rewrite Hsearch.
Qed.

End RetrievalFromStore.

(** ** The complete pipeline: what it returns and what it costs *)

Section PipelineExtras.

Variable svc : EmbeddingService.
Variable search :
  Embedding -> Q -> nat -> option string -> option string -> result (list Row).
Variable cohere_rerank : nat -> RerankRequest -> result RerankResponse.
Variable rerankingService : RerankingService.
Variable this : VectorRetriever.

Lemma formatResults_formatted (results : list Chunk) (includeMetadata : bool) :
  Forall formatted (formatResults results includeMetadata) /\
  map rank (formatResults results includeMetadata)
  = map Some (seq 1 (length (formatResults results includeMetadata))).
Proof.
  unfold formatResults. split.
  - apply mapi_Forall. intros i x. repeat split.
  - rewrite mapi_length. apply (mapi_ranks includeMetadata results 0).
Qed.

Lemma retrieveWithMMR_formatted (query : string) (options : RetrievalOptions)
    (r : MMRResult) :
  retrieveWithMMR svc search this query options = Ok r ->
  Forall formatted (mmr_results r) /\
  map rank (mmr_results r) = map Some (seq 1 (length (mmr_results r))).
Proof.
  unfold retrieveWithMMR.
  destruct (generateEmbedding svc query) as [qe|m]; [|discriminate].
  cbn [bind].
  match goal with
  | |- context [retrieveTopKCandidates ?s ?q ?k ?t ?a ?b] =>
      destruct (retrieveTopKCandidates s q k t a b) as [candidates|m]
  end; [|discriminate].
  cbn [bind].
  destruct (length candidates =? 0)%nat.
  - intro H. inversion H; subst. simpl. split; [constructor | reflexivity].
  - match goal with
    | |- context [applyMMR ?s ?q ?c ?k ?l] =>
        destruct (applyMMR s q c k l) as [selected|m]
    end; [|discriminate].
    cbn [bind].
    destruct (calculateDiversityScore svc selected) as [d|m]; [|discriminate].
    intro H. inversion H; subst. simpl. apply formatResults_formatted.
Qed.

Lemma rerankChunks_calls (query : string) (chunks : list Chunk)
    (options : RerankOptions) (w : World) :
  exists calls,
    calls <= Nat.max 1 (retryAttempts rerankingService) /\
    rerankCalls (snd (rerankChunks cohere_rerank rerankingService query chunks
                        options w))
    = rerankCalls w + calls.
Proof.
  unfold rerankChunks, tryCatch, await, ofResult, reject, resolve.
  match goal with
  | |- context [validateInputs ?q ?c ?n] => destruct (validateInputs q c n)
  end.
  - unfold callCohereRerank.
    match goal with
    | |- context [callCohereRerankFrom _ _ ?left ?q ?d ?o ?a ?w0] =>
        destruct (callCohereRerankFrom_trace cohere_rerank rerankingService
                    q d o left a w0)
          as (calls & Hcalls & Hcount & _);
        destruct (callCohereRerankFrom cohere_rerank rerankingService
                    left q d o a w0)
          as [[response|message] w']
    end.
    + exists calls. simpl in Hcount. split; [lia|].
      destruct (processRerankResults rerankingService response chunks
                  (orDefault (ro_includeOriginalRank options) true));
        simpl; exact Hcount.
    + exists calls. simpl in Hcount. split; [lia | exact Hcount].
  - exists 0. simpl. split; [lia | now rewrite Nat.add_0_r].
Qed.

(** X20. Whatever [retrieveWithMMRAndRerank] returns is a list of formatted
    chunks ranked 1, 2, ... by position: on both paths the last step is
    [formatResults], so no returned chunk carries an embedding, an
    [mmrScore] or, after reranking, a [rerankScore] of its own. *)
Theorem retrieveWithMMRAndRerank_formatted (query : string)
    (options : RetrievalOptions) (w w' : World) (r : RetrievalResult) :
  retrieveWithMMRAndRerank svc search cohere_rerank rerankingService this
    query options w = (Ok r, w') ->
  Forall formatted (results r) /\
  map rank (results r) = map Some (seq 1 (length (results r))).
Proof.
  unfold retrieveWithMMRAndRerank, tryCatch, await, ofResult, resolve, reject.
  destruct (retrieveWithMMR svc search this query (mmrOptions this options))
    as [mmr|m] eqn:Hmmr; [|discriminate].
  apply retrieveWithMMR_formatted in Hmmr.
  destruct (negb (orDefault (opt_useReranking options) true)
            || (length (mmr_results mmr) =? 0)%nat).
  - intro H. inversion H; subst. exact Hmmr.
  - match goal with
    | |- context [rerankChunks ?c ?t ?q ?cs ?o ?w0] =>
        destruct (rerankChunks c t q cs o w0) as [[out|m] w1]
    end; [|discriminate].
    intro H. inversion H; subst. simpl. apply formatResults_formatted.
Qed.

(** X21. One run of [retrieveWithMMRAndRerank], whether it returns or
    throws, calls the reranker at most [retryAttempts] times (3 in the
    source), and not at all when reranking is turned off. *)
Theorem retrieveWithMMRAndRerank_calls (query : string)
    (options : RetrievalOptions) (w : World) :
  let after :=
    snd (retrieveWithMMRAndRerank svc search cohere_rerank rerankingService
           this query options w) in
  rerankCalls w <= rerankCalls after
    <= rerankCalls w + Nat.max 1 (retryAttempts rerankingService) /\
  (opt_useReranking options = Some false -> after = w).
Proof.
  unfold retrieveWithMMRAndRerank, tryCatch, await, ofResult, resolve, reject.
  destruct (retrieveWithMMR svc search this query (mmrOptions this options))
    as [mmr|m]; [|simpl; split; [lia | reflexivity]].
  destruct (orDefault (opt_useReranking options) true) eqn:Euse; cbn [negb orb].
  - destruct (length (mmr_results mmr) =? 0)%nat.
    + simpl. split; [lia | reflexivity].
    + match goal with
      | |- context [rerankChunks ?c ?t ?q ?cs ?o ?w0] =>
          destruct (rerankChunks_calls q cs o w0) as (calls & Hcalls & Hcount);
          destruct (rerankChunks c t q cs o w0) as [[out|m] w1]
      end; simpl in *; (split; [lia|]);
        intro Hoff; rewrite Hoff in Euse; discriminate.
  - simpl. split; [lia | reflexivity].
Qed.

End PipelineExtras.

(** ** createBatches *)

Lemma ceilDiv_step (n batchSize : nat) :
  1 <= batchSize -> 1 <= n ->
  ceilDiv n batchSize = S (ceilDiv (n - batchSize) batchSize).
Proof.
  intros Hb Hn. unfold ceilDiv.
  destruct (Nat.le_gt_cases batchSize n) as [Hle | Hgt].
  - replace (n + batchSize - 1) with ((n - batchSize + batchSize - 1) + 1 * batchSize)
      by lia.
    rewrite Nat.div_add by lia. lia.
  - replace (n - batchSize) with 0 by lia.
    replace (0 + batchSize - 1) with (batchSize - 1) by lia.
    rewrite (Nat.div_small (batchSize - 1)) by lia.
    replace (n + batchSize - 1) with ((n - 1) + 1 * batchSize) by lia.
    rewrite Nat.div_add by lia.
    rewrite Nat.div_small by lia. reflexivity.
Qed.

Lemma createBatchesFrom_spec {B : Type} (batchSize : nat) :
  1 <= batchSize ->
  forall fuel (rest : list B),
    length rest <= fuel ->
    exists batches,
      createBatchesFrom fuel rest batchSize = Some batches /\
      concat batches = rest /\
      Forall (fun b => 1 <= length b <= batchSize) batches /\
      length batches = ceilDiv (length rest) batchSize.
Proof.
  intros Hb. induction fuel as [|fuel IH]; intros rest Hfuel.
  - destruct rest; [|simpl in Hfuel; lia].
    exists []. simpl. repeat split; [constructor|].
    unfold ceilDiv. simpl. symmetry. apply Nat.div_small. lia.
  - destruct rest as [|x rest'] eqn:E.
    + exists []. simpl. repeat split; [constructor|].
      unfold ceilDiv. simpl. symmetry. apply Nat.div_small. lia.
    + rewrite <- E in *. assert (Hlen : 1 <= length rest) by (subst; simpl; lia).
      destruct (IH (skipn batchSize rest)) as (batches & Hrun & Hcat & Hall & Hcount).
      { rewrite length_skipn. lia. }
      exists (firstn batchSize rest :: batches).
      assert (Hunfold : createBatchesFrom (S fuel) rest batchSize
                        = option_map (cons (firstn batchSize rest))
                            (createBatchesFrom fuel (skipn batchSize rest)
                               batchSize))
        by (subst; reflexivity).
      rewrite Hunfold, Hrun. simpl. repeat split.
      * rewrite Hcat. apply firstn_skipn.
      * constructor; [|exact Hall]. rewrite length_firstn. lia.
      * rewrite Hcount, length_skipn. symmetry. now apply ceilDiv_step.
Qed.

(** X22. For a batch size of at least 1, [createBatches] ends and cuts the
    array into [ceil(length / batchSize)] consecutive batches, none empty and
    none longer than [batchSize], whose concatenation is the array.  With a
    batch size of 0 and a non-empty array its loop does not end: no number
    of iterations gives a result. *)
Theorem createBatches_partition {B : Type} (array : list B) (batchSize : nat) :
  (1 <= batchSize ->
   exists batches,
     createBatches array batchSize = Some batches /\
     concat batches = array /\
     Forall (fun b => 1 <= length b <= batchSize) batches /\
     length batches = ceilDiv (length array) batchSize) /\
  (array <> [] ->
   forall fuel, createBatchesFrom fuel array 0 = None).
Proof.
  split.
  - intro Hb. apply createBatchesFrom_spec; [exact Hb | lia].
  - intros Hne fuel. induction fuel as [|fuel IH].
    + destruct array; [congruence | reflexivity].
    + destruct array as [|x rest] eqn:E; [congruence|].
      rewrite <- E in *. 
      assert (Hunfold : createBatchesFrom (S fuel) array 0
                        = option_map (cons (firstn 0 array))
                            (createBatchesFrom fuel (skipn 0 array) 0))
        by (subst; reflexivity).
      rewrite Hunfold. simpl skipn. now rewrite IH.
Qed.

(** ** applyMMR: a selection without repetition *)

Lemma clearMmrScore_withMmrScore (c : Chunk) (s : Q) :
  clearMmrScore (withMmrScore c s) = clearMmrScore c.
Proof. reflexivity. Qed.

Lemma splice1_Permutation {B : Type} (i : nat) (arr : list B) (x : B) :
  nth_error arr i = Some x -> Permutation arr (x :: splice1 i arr).
Proof.
  intro Hnth. apply nth_error_split in Hnth as (l1 & l2 & -> & <-).
  unfold splice1.
  rewrite firstn_app, firstn_all, Nat.sub_diag, firstn_O, app_nil_r.
  replace (skipn (S (length l1)) (l1 ++ x :: l2)) with l2.
  - symmetry. apply Permutation_middle.
  - rewrite skipn_app, skipn_all2 by lia.
    replace (S (length l1) - length l1) with 1 by lia. reflexivity.
Qed.

Lemma mmrLoop_Permutation (svc : EmbeddingService) (lambda : Q) :
  forall picksLeft selected remaining out,
    mmrLoop svc picksLeft lambda selected remaining = Ok out ->
    exists left,
      Permutation (map clearMmrScore (selected ++ remaining))
        (map clearMmrScore out ++ left).
Proof.
  induction picksLeft as [|n IH]; intros selected remaining out Hrun.
  - inversion Hrun; subst. exists (map clearMmrScore remaining).
    now rewrite map_app.
  - destruct (list_eq_dec_nil remaining) as [-> | Hne].
    + inversion Hrun; subst. exists []. now rewrite map_app.
    + rewrite mmrLoop_step in Hrun by exact Hne.
      destruct (bestLoop svc lambda selected remaining 0 None) as [b|msg] eqn:Hb;
        [|discriminate].
      destruct (bestLoop_start svc lambda selected remaining b Hne Hb)
        as (i & c & s & -> & Hnth & _).
      cbn [bind] in Hrun. apply IH in Hrun as [left Hperm].
      exists left. rewrite <- Hperm.
      rewrite <- app_assoc, !map_app. apply Permutation_app_head.
      simpl. rewrite clearMmrScore_withMmrScore.
      change (clearMmrScore c :: map clearMmrScore (splice1 i remaining))
        with (map clearMmrScore (c :: splice1 i remaining)).
      apply Permutation_map. now apply splice1_Permutation.
Qed.

(** X23. [applyMMR] selects without repetition and invents nothing: up to
    the [mmrScore] it records, the chunks it returns are candidates taken at
    distinct positions of the input.  In particular candidates of distinct
    ids give a selection of distinct ids. *)
Theorem applyMMR_selects_distinct (svc : EmbeddingService)
    (queryEmbedding : Embedding) (candidates : list Chunk) (finalK : nat)
    (lambda : Q) (selected : list Chunk) :
  applyMMR svc queryEmbedding candidates finalK lambda = Ok selected ->
  (exists left,
     Permutation (map clearMmrScore candidates)
       (map clearMmrScore selected ++ left)) /\
  (NoDup (map id candidates) -> NoDup (map id selected)).
Proof.
  intro Hrun.
  assert (Hperm : exists left,
            Permutation (map clearMmrScore candidates)
              (map clearMmrScore selected ++ left)).
  { unfold applyMMR in Hrun.
    destruct (length candidates <=? finalK)%nat eqn:Hleb.
    - inversion Hrun; subst. exists []. now rewrite app_nil_r.
    - assert (Hne : candidates <> []).
      { intro Hnil. rewrite Hnil in Hleb. discriminate. }
      destruct (reduceMostRelevant_spec candidates Hne)
        as (i & m & Hred & Hnth & _).
      rewrite Hred in Hrun. cbn [bind app length] in Hrun.
      apply mmrLoop_Permutation in Hrun as [left Hperm].
      exists left. rewrite <- Hperm. apply Permutation_map.
      simpl. now apply splice1_Permutation. }
  split; [exact Hperm|].
  intro Hnd. destruct Hperm as [left Hperm].
  apply (Permutation_map id) in Hperm.
  rewrite map_app, !map_map in Hperm. simpl in Hperm.
  change (fun x : Chunk => id x) with id in Hperm.
  eapply NoDup_app_remove_r.
  eapply Permutation_NoDup; [exact Hperm | exact Hnd].
Qed.

(** ** contextualRetrieve *)

Section ContextualProperties.

Variable svc : EmbeddingService.
Variable search :
  Embedding -> Q -> nat -> option string -> option string -> result (list Row).
Variable this : VectorRetriever.

Lemma retrieveWithMMR_query (query : string) (options : RetrievalOptions)
    (r : MMRResult) :
  retrieveWithMMR svc search this query options = Ok r -> mmr_query r = query.
Proof.
  unfold retrieveWithMMR, rethrow, bind.
  destruct (generateEmbedding svc query) as [qe|m]; [|discriminate].
  destruct (retrieveTopKCandidates search qe _ _ _ _) as [candidates|m];
    [|discriminate].
  destruct (length candidates =? 0)%nat.
  - intro H. inversion H. reflexivity.
  - destruct (applyMMR svc qe candidates _ _) as [selected|m]; [|discriminate].
    destruct (calculateDiversityScore svc selected) as [d|m]; [|discriminate].
    intro H. inversion H. reflexivity.
Qed.

Lemma retrieveWithMMR_throws (query : string) (options : RetrievalOptions)
    (message : string) :
  retrieveWithMMR svc search this query options = Throw message ->
  exists cause, message = ("Vector retrieval failed: " ++ cause)%string.
Proof.
  unfold retrieveWithMMR. cbv zeta.
  match goal with
  | |- rethrow _ ?body = _ -> _ => destruct body as [r|m]
  end; simpl; intro H; [discriminate|].
  inversion H. now exists m.
Qed.

(** X26. What [contextualRetrieve] returns names as its [query] the text
    that was embedded: the caller's query when the context is empty, and
    otherwise the context, a blank line and "Query: " before it.  A failure
    reaches the caller behind two prefixes, "Contextual retrieval failed:
    Vector retrieval failed: ". *)
Theorem contextualRetrieve_expanded_query (query context : string)
    (options : RetrievalOptions) :
  (forall r,
     contextualRetrieve svc search this query context options = Ok r ->
     (context = "" -> mmr_query r = query) /\
     (context <> "" ->
      mmr_query r
      = (context ++ String (ascii_of_nat 10) (String (ascii_of_nat 10) "Query: ")
         ++ query)%string)) /\
  (forall message,
     contextualRetrieve svc search this query context options = Throw message ->
     exists cause,
       message
       = ("Contextual retrieval failed: Vector retrieval failed: " ++ cause)%string).
Proof.
  unfold contextualRetrieve. split.
  - intros r Hrun.
    destruct (retrieveWithMMR svc search this
                (if truthy context
                 then (context ++ String (ascii_of_nat 10)
                         (String (ascii_of_nat 10) "Query: ") ++ query)%string
                 else query) options) as [r'|m] eqn:Hinner;
      simpl in Hrun; [|discriminate].
    inversion Hrun; subst r'. apply retrieveWithMMR_query in Hinner.
    rewrite Hinner. split.
    + intros ->. reflexivity.
    + intro Hne. destruct context; [congruence | reflexivity].
  - intros message Hrun.
    destruct (retrieveWithMMR svc search this
                (if truthy context
                 then (context ++ String (ascii_of_nat 10)
                         (String (ascii_of_nat 10) "Query: ") ++ query)%string
                 else query) options) as [r'|m] eqn:Hinner;
      simpl in Hrun; [discriminate|].
    inversion Hrun. apply retrieveWithMMR_throws in Hinner as [cause ->].
    exists cause. reflexivity.
Qed.

End ContextualProperties.

(** ** The further properties at concrete inputs *)

Lemma reciprocalRankFusion_scores_witness :
  denseRank fusedFirst = Some 1 /\
  sparseRank fusedFirst = Some 1 /\
  Some (rrfScore fusedFirst) =
    specFusedScore id [chunkA; chunkB] [chunkA; chunkC]
      defaultDenseWeight defaultSparseWeight defaultK "a".
Proof.
  apply (reciprocalRankFusion_scores id [chunkA; chunkB] [chunkA; chunkC]
           defaultDenseWeight defaultSparseWeight defaultK fusedFirst).
  - exact (proj1 distinctIds_examples).
  - exact (proj2 distinctIds_examples).
  - left. reflexivity.
Defined.

Lemma reciprocalRankFusion_dense_only_witness :
  reciprocalRankFusion id [chunkA; chunkB] [] defaultDenseWeight
    defaultSparseWeight defaultK
  = mapi (denseRecord defaultDenseWeight defaultK) 0 [chunkA; chunkB].
Proof.
  apply (reciprocalRankFusion_dense_only id [chunkA; chunkB]).
  - exact (proj1 distinctIds_examples).
  - discriminate.
  - discriminate.
Defined.

Lemma removeDuplicates_first_wins_witness :
  removeDuplicates [chunkA; chunkB; chunkC] = [chunkA; chunkB; chunkC].
Proof.
  apply (proj2 (proj2 (removeDuplicates_first_wins [chunkA; chunkB; chunkC]))).
  repeat constructor; simpl; intuition discriminate.
Defined.

Lemma multiStepRetrieve_results_witness :
  exists r,
    multiStepRetrieve testEmbeddingService twoRows newVectorRetriever
      "what is alpha" (Some 2) noOptions = Ok r /\
    length (ms_results r) <= 10 /\
    NoDup (map id (ms_results r)).
Proof.
  destruct (multiStepRetrieve testEmbeddingService twoRows newVectorRetriever
              "what is alpha" (Some 2) noOptions) as [r|m] eqn:Hrun.
  - exists r. split; [reflexivity|].
    destruct (proj1 (multiStepRetrieve_results testEmbeddingService twoRows
                       newVectorRetriever "what is alpha" (Some 2) noOptions)
                r Hrun) as (Hlen & Hnd & _).
    split; [exact Hlen | exact Hnd].
  - vm_compute in Hrun. discriminate.
Defined.


Lemma prepareDocuments_bounds_witness :
  Forall (fun d => String.length (doc_text d) <= 4096 + 3)
    (prepareDocuments newRerankingService [longChunk; chunkA] true).
Proof.
  apply (proj1 (proj2 (prepareDocuments_bounds newRerankingService
                         [longChunk; chunkA] true))).
  reflexivity.
Defined.

Lemma processRerankResults_ranks_witness :
  exists reranked,
    processRerankResults newRerankingService oneItem [chunkA; chunkB] true
    = Ok reranked.
Proof.
  apply (proj1 (proj1 (processRerankResults_ranks newRerankingService oneItem
                         [chunkA; chunkB] true))).
  repeat constructor.
Defined.

Lemma batchRerank_all_failed_witness :
  exists out w',
    batchRerank failingReranker newRerankingService twoPairs rerankOne
      initialWorld = (Ok out, w') /\
    successful out = 0 /\ batch_results out = [] /\ failed out = 2.
Proof.
  apply (batchRerank_all_failed failingReranker newRerankingService twoPairs
           rerankOne initialWorld).
  - exact failingReranker_alwaysFails.
  - repeat constructor; eexists; reflexivity.
Defined.

Lemma batchRerank_isolates_errors_witness :
  exists w',
    batchRerank echoReranker newRerankingService brokenPairs rerankOne
      initialWorld
    = (Throw "Cannot read properties of undefined (reading 'substring')", w').
Proof.
  apply (proj2 (batchRerank_isolates_errors echoReranker newRerankingService
                  brokenPairs rerankOne initialWorld)
           [ {| pair_query := QueryString "first"; pair_chunks := [chunkA];
                pair_metadata := [] |} ]
           {| pair_query :=
                NotAString
                  "Cannot read properties of undefined (reading 'substring')";
              pair_chunks := [chunkB]; pair_metadata := [] |}
           [ {| pair_query := QueryString "third"; pair_chunks := [chunkC];
                pair_metadata := [] |} ]).
  - reflexivity.
  - repeat constructor. eexists; reflexivity.
  - reflexivity.
Defined.


Lemma retrieveWithMMR_errors_witness :
  retrieveWithMMR (sourceEmbeddingService downProvider) twoRows
    newVectorRetriever "what is alpha" noOptions
  = Throw "Vector retrieval failed: quota exceeded" /\
  retrieveWithMMR testEmbeddingService downStore newVectorRetriever
    "what is alpha" noOptions
  = Throw "Vector retrieval failed: Database query failed: connection refused".
Proof.
  split.
  - apply (proj1 (retrieveWithMMR_errors (sourceEmbeddingService downProvider)
                    twoRows newVectorRetriever "what is alpha" noOptions)).
    reflexivity.
  - apply (proj2 (retrieveWithMMR_errors testEmbeddingService downStore
                    newVectorRetriever "what is alpha" noOptions) [1%Q; 0%Q]).
    + reflexivity.
    + reflexivity.
Defined.

Lemma retrieveWithMMRAndRerank_formatted_witness :
  exists r w',
    retrieveWithMMRAndRerank testEmbeddingService twoRows echoReranker
      newRerankingService newVectorRetriever "what is alpha" noOptions
      initialWorld = (Ok r, w') /\
    Forall formatted (results r) /\
    map rank (results r) = map Some (seq 1 (length (results r))).
Proof.
  destruct (retrieveWithMMRAndRerank testEmbeddingService twoRows echoReranker
              newRerankingService newVectorRetriever "what is alpha" noOptions
              initialWorld) as [[r|m] w'] eqn:Hrun.
  - exists r, w'. split; [reflexivity|].
    exact (retrieveWithMMRAndRerank_formatted testEmbeddingService twoRows
             echoReranker newRerankingService newVectorRetriever
             "what is alpha" noOptions initialWorld w' r Hrun).
  - vm_compute in Hrun. discriminate.
Defined.

Lemma retrieveWithMMRAndRerank_calls_witness :
  snd (retrieveWithMMRAndRerank testEmbeddingService twoRows failingReranker
         newRerankingService newVectorRetriever "what is alpha"
         withoutReranking initialWorld)
  = initialWorld.
Proof.
  apply (proj2 (retrieveWithMMRAndRerank_calls testEmbeddingService twoRows
                  failingReranker newRerankingService newVectorRetriever
                  "what is alpha" withoutReranking initialWorld)).
  reflexivity.
Defined.

Lemma createBatches_partition_witness :
  exists batches,
    createBatches [1; 2; 3; 4; 5] 2 = Some batches /\
    concat batches = [1; 2; 3; 4; 5] /\
    Forall (fun b => 1 <= length b <= 2) batches /\
    length batches = 3.
Proof.
  apply (proj1 (createBatches_partition [1; 2; 3; 4; 5] 2)). lia.
Defined.

Lemma applyMMR_selects_distinct_witness :
  (exists left,
     Permutation (map clearMmrScore [chunkA; chunkB; chunkC])
       (map clearMmrScore [chunkA; withMmrScore chunkC (12 # 40)] ++ left)) /\
  (NoDup (map id [chunkA; chunkB; chunkC]) ->
   NoDup (map id [chunkA; withMmrScore chunkC (12 # 40)])).
Proof.
  apply (applyMMR_selects_distinct testEmbeddingService [1%Q; 0%Q]
           [chunkA; chunkB; chunkC] 2 (1 # 2)).
  reflexivity.
Defined.

Lemma contextualRetrieve_expanded_query_witness :
  exists r,
    contextualRetrieve testEmbeddingService twoRows newVectorRetriever
      "what is alpha" "about letters" noOptions = Ok r /\
    mmr_query r
    = ("about letters" ++ String (ascii_of_nat 10)
         (String (ascii_of_nat 10) "Query: ") ++ "what is alpha")%string.
Proof.
  destruct (contextualRetrieve testEmbeddingService twoRows newVectorRetriever
              "what is alpha" "about letters" noOptions) as [r|m] eqn:Hrun.
  - exists r. split; [reflexivity|].
    apply (proj1 (contextualRetrieve_expanded_query testEmbeddingService
                    twoRows newVectorRetriever "what is alpha" "about letters"
                    noOptions) r Hrun).
    discriminate.
  - vm_compute in Hrun. discriminate.
Defined.

(** * Properties of the numeric core in binary64 *)

Module Binary64Facts.

Import Binary64.
Import PrimFloat SpecFloat FloatOps FloatAxioms.
#[local] Set Warnings "-inexact-float".

(** ** The order of binary64 numbers *)

Ltac compare_cases :=
  repeat match goal with
  | H : context [Z.compare ?x ?y] |- _ =>
      destruct (Z.compare_spec x y); try discriminate
  | |- context [Z.compare ?x ?y] =>
      destruct (Z.compare_spec x y); try discriminate
  | H : context [Pos.compare_cont Eq ?x ?y] |- _ =>
      change (Pos.compare_cont Eq x y) with (Pos.compare x y) in *;
      destruct (Pos.compare_spec x y); try discriminate
  | |- context [Pos.compare_cont Eq ?x ?y] =>
      change (Pos.compare_cont Eq x y) with (Pos.compare x y) in *;
      destruct (Pos.compare_spec x y); try discriminate
  end.

Lemma SFltb_trans (a b c : spec_float) :
  SFltb a b = true -> SFltb b c = true -> SFltb a c = true.
Proof.
  unfold SFltb, SFcompare.
  destruct a as [sa|sa| |sa ma ea], b as [sb|sb| |sb mb eb],
    c as [sc|sc| |sc mc ec];
    try destruct sa; try destruct sb; try destruct sc;
    try discriminate; try reflexivity;
    intros H1 H2; simpl in *; compare_cases; subst;
    try reflexivity; try discriminate; try lia.
Qed.



Lemma gt_trans (a b c : float) :
  gt a b = true -> gt b c = true -> gt a c = true.
Proof.
  unfold gt. rewrite !ltb_spec. intros H1 H2. eapply SFltb_trans; eauto.
Qed.






(** ** The scans and the loop of applyMMR *)

Section Selection.

Context {A : Type}.
Variable svc : EmbeddingService.

Lemma clearMmrScore_withMmrScore_b64 (c : Candidate A) (s : float) :
  clearMmrScore (withMmrScore c s) = clearMmrScore c.
Proof. reflexivity. Qed.

(** Where the left-to-right scan of [reduce] ends. *)
Lemma reduceLoop_position (rest : list (Candidate A)) :
  forall idx i0 b i m,
    reduceLoop rest idx (i0, b) = (i, m) ->
    (i, m) = (i0, b) \/ (idx <= i /\ nth_error rest (i - idx) = Some m).
Proof.
  induction rest as [|y t IH]; intros idx i0 b i m H; simpl in H.
  - left. congruence.
  - cbn [snd] in H.
    destruct (gt (similarity y) (similarity b)); apply IH in H.
    + destruct H as [H | [Hle Hnth]].
      * inversion H; subst. right. split; [lia|].
        now rewrite Nat.sub_diag.
      * right. split; [lia|].
        replace (i - idx) with (S (i - S idx)) by lia. exact Hnth.
    + destruct H as [H | [Hle Hnth]]; [now left|].
      right. split; [lia|].
      replace (i - idx) with (S (i - S idx)) by lia. exact Hnth.
Qed.

Lemma reduceMostRelevant_position (candidates : list (Candidate A)) :
  candidates <> [] ->
  exists i m,
    reduceMostRelevant candidates = Ok (i, m) /\
    nth_error candidates i = Some m.
Proof.
  destruct candidates as [|first rest]; [congruence|]. intros _. simpl.
  destruct (reduceLoop rest 1 (0, first)) as [i m] eqn:H.
  exists i, m. split; [reflexivity|].
  apply reduceLoop_position in H as [H | [Hle Hnth]].
  - inversion H; subst. reflexivity.
  - destruct i as [|i]; [lia|].
    replace (S i - 1) with i in Hnth by lia. exact Hnth.
Qed.

Lemma maxSimilarityLoop_returns (D : nat) (c : Candidate A) (selected : list (Candidate A)) :
  cosineDefined svc ->
  (forall e, embedding c = Some e -> length e = D) ->
  sameDimension D selected ->
  forall acc, exists m, maxSimilarityLoop svc c selected acc = Ok m.
Proof.
  intros Hcos Hc Hsel. induction Hsel as [|s rest Hs _ IH]; intro acc; simpl.
  - now exists acc.
  - destruct (embedding c) as [ce|] eqn:Ec; [|apply IH].
    destruct (embedding s) as [se|] eqn:Es; [|apply IH].
    destruct (Hcos ce se) as [q Hq].
    + rewrite (Hc ce eq_refl), (Hs se eq_refl). reflexivity.
    + rewrite Hq. simpl. apply IH.
Qed.

Lemma mmrScoreOf_returns (D : nat) (lambda : float) (c : Candidate A)
    (selected : list (Candidate A)) :
  cosineDefined svc ->
  (forall e, embedding c = Some e -> length e = D) ->
  sameDimension D selected ->
  exists s, mmrScoreOf svc lambda selected c = Ok s.
Proof.
  intros Hcos Hc Hsel. unfold mmrScoreOf.
  destruct (maxSimilarityLoop_returns D c selected Hcos Hc Hsel 0%float)
    as [m Hm].
  rewrite Hm. simpl. eauto.
Qed.

Lemma bestLoop_returns (D : nat) (lambda : float) (selected remaining : list (Candidate A)) :
  cosineDefined svc ->
  sameDimension D selected ->
  sameDimension D remaining ->
  forall idx best, exists b, bestLoop svc lambda selected remaining idx best = Ok b.
Proof.
  intros Hcos Hsel Hrem.
  induction Hrem as [|c rest Hc _ IH]; intros idx best; simpl.
  - now exists best.
  - destruct (mmrScoreOf_returns D lambda c selected Hcos Hc Hsel) as [s Hs].
    rewrite Hs. simpl. apply IH.
Qed.

(** What the scan of [remaining] leaves in [bestCandidate] and [bestScore]:
    either nothing new, every score failing [mmrScore > bestScore], or a
    candidate of [remaining] with its score, which is above the start. *)
Lemma bestLoop_outcome (lambda : float) (selected remaining : list (Candidate A)) :
  forall idx best out,
    bestLoop svc lambda selected remaining idx best = Ok out ->
    (out = best /\
     Forall (fun c => exists s, mmrScoreOf svc lambda selected c = Ok s /\
                                gt s (snd best) = false) remaining) \/
    (exists i c s,
       out = (Some (i, c), s) /\ idx <= i /\
       nth_error remaining (i - idx) = Some c /\
       mmrScoreOf svc lambda selected c = Ok s /\
       gt s (snd best) = true).
Proof.
  induction remaining as [|y t IH]; intros idx best out Hrun; simpl in Hrun.
  - left. split; [congruence | constructor].
  - destruct (mmrScoreOf svc lambda selected y) as [sy|msg] eqn:Hy;
      simpl in Hrun; [|discriminate].
    destruct (gt sy (snd best)) eqn:Hgt; apply IH in Hrun.
    + right. destruct Hrun as [[-> _] | (i & c & s & -> & Hle & Hnth & Hs & Hbetter)].
      * exists idx, y, sy. rewrite Nat.sub_diag. repeat split; auto.
      * exists i, c, s. repeat split; auto; [lia | |].
        -- replace (i - idx) with (S (i - S idx)) by lia. exact Hnth.
        -- cbn [snd] in Hbetter. eapply gt_trans; eauto.
    + destruct Hrun as [[-> Hall] | (i & c & s & -> & Hle & Hnth & Hs & Hbetter)].
      * left. split; [reflexivity|]. constructor; eauto.
      * right. exists i, c, s. repeat split; auto; [lia|].
        replace (i - idx) with (S (i - S idx)) by lia. exact Hnth.
Qed.

Lemma bestLoop_from_start (lambda : float) (selected remaining : list (Candidate A)) out :
  bestLoop svc lambda selected remaining 0 (None, neg_infinity) = Ok out ->
  (fst out = None /\ Forall (notAbove svc lambda selected) remaining) \/
  (exists i c s,
     out = (Some (i, c), s) /\ nth_error remaining i = Some c /\
     mmrScoreOf svc lambda selected c = Ok s /\ gt s neg_infinity = true).
Proof.
  intro Hrun. apply bestLoop_outcome in Hrun.
  destruct Hrun as [[-> Hall] | (i & c & s & -> & _ & Hnth & Hs & Hgt)].
  - left. split; [reflexivity | exact Hall].
  - right. exists i, c, s. rewrite Nat.sub_0_r in Hnth. repeat split; auto.
Qed.

Lemma mmrLoop_unfold (n : nat) (lambda : float) (selected remaining : list (Candidate A)) :
  remaining <> [] ->
  mmrLoop svc (S n) lambda selected remaining =
  bind (bestLoop svc lambda selected remaining 0 (None, neg_infinity))
    (fun best =>
       match best with
       | (Some (index, bestCandidate), bestScore) =>
           mmrLoop svc n lambda
             (selected ++ [withMmrScore bestCandidate bestScore])
             (splice1 index remaining)
       | (None, _) => Ok selected
       end).
Proof.
  destruct remaining; [congruence | reflexivity].
Qed.

Lemma mmrLoop_returns (D : nat) (lambda : float) :
  cosineDefined svc ->
  forall picksLeft (selected remaining : list (Candidate A)),
    sameDimension D selected ->
    sameDimension D remaining ->
    exists out, mmrLoop svc picksLeft lambda selected remaining = Ok out.
Proof.
  intros Hcos. induction picksLeft as [|n IH]; intros selected remaining Hsel Hrem.
  - simpl. eauto.
  - destruct (list_eq_dec_nil remaining) as [-> | Hne]; [simpl; eauto|].
    rewrite mmrLoop_unfold by exact Hne.
    destruct (bestLoop_returns D lambda selected remaining Hcos Hsel Hrem 0
                (None, neg_infinity)) as [b Hb].
    rewrite Hb. cbn [bind].
    destruct (bestLoop_from_start lambda selected remaining b Hb)
      as [[Hnone _] | (i & c & s & -> & Hnth & _)].
    + destruct b as [[[i c]|] s]; [discriminate | eauto].
    + apply IH.
      * apply Forall_app. split; [exact Hsel|]. constructor; [|constructor].
        unfold sameDimension in Hrem. rewrite Forall_forall in Hrem.
        apply (Hrem c). eapply nth_error_In; eauto.
      * now apply splice1_Forall.
Qed.

(** What the loop returns: [selected] followed by its picks, taken at
    distinct positions of [remaining]; fewer picks than the guard allows
    only when the loop left at its [break], every candidate still
    remaining having a score that is NaN or [-Infinity]. *)
Lemma mmrLoop_outcome (lambda : float) :
  forall picksLeft (selected remaining out : list (Candidate A)),
    mmrLoop svc picksLeft lambda selected remaining = Ok out ->
    exists picks rest,
      out = selected ++ picks /\
      length picks <= Nat.min picksLeft (length remaining) /\
      Permutation (map clearMmrScore remaining)
        (map clearMmrScore picks ++ map clearMmrScore rest) /\
      (length picks < Nat.min picksLeft (length remaining) ->
       rest <> [] /\ Forall (notAbove svc lambda out) rest).
Proof.
  induction picksLeft as [|n IH]; intros selected remaining out Hrun.
  - inversion Hrun; subst. exists [], remaining. rewrite app_nil_r.
    repeat split; simpl; auto; lia.
  - destruct (list_eq_dec_nil remaining) as [-> | Hne].
    + inversion Hrun; subst. exists [], []. rewrite app_nil_r.
      repeat split; simpl; auto; lia.
    + rewrite mmrLoop_unfold in Hrun by exact Hne.
      destruct (bestLoop svc lambda selected remaining 0 (None, neg_infinity))
        as [b|msg] eqn:Hb; [|discriminate].
      cbn [bind] in Hrun.
      destruct (bestLoop_from_start lambda selected remaining b Hb)
        as [[Hnone Hall] | (i & c & s & -> & Hnth & _)].
      * destruct b as [[[i c]|] s]; [discriminate|].
        inversion Hrun; subst out. exists [], remaining. rewrite app_nil_r.
        repeat split; simpl; auto; lia.
      * apply IH in Hrun as (picks & rest & -> & Hlen & Hperm & Hstuck).
        pose proof (nth_error_lt _ _ _ Hnth) as Hi.
        rewrite splice1_length in Hlen, Hstuck by exact Hi.
        assert (Heq : (selected ++ [withMmrScore c s]) ++ picks
                      = selected ++ withMmrScore c s :: picks)
          by now rewrite <- app_assoc.
        rewrite Heq in *.
        exists (withMmrScore c s :: picks), rest.
        split; [reflexivity|]. split; [|split].
        -- cbn [length]. lia.
        -- cbn [map app]. rewrite clearMmrScore_withMmrScore_b64.
           rewrite <- Hperm.
           change (clearMmrScore c :: map clearMmrScore (splice1 i remaining))
             with (map clearMmrScore (c :: splice1 i remaining)).
           apply Permutation_map. now apply splice1_Permutation.
        -- intro Hfew. apply Hstuck. cbn [length] in Hfew. lia.
Qed.

End Selection.

(** ** applyMMR: how many chunks come back *)

Section Size.

Context {A : Type}.
Variable svc : EmbeddingService.

(** C3 (amended). Whatever [applyMMR] returns has this size: with at most
    [finalK] candidates it is the candidates themselves; with more, it holds
    at least one chunk and at most [finalK] of them (one for [finalK = 0]),
    and fewer than [finalK] only when the loop has left at its [break]:
    every candidate that was not selected then has, against the chunks
    returned, an MMR score that is NaN or [-Infinity].  And [applyMMR] does
    return when the embeddings have one dimension. *)
Theorem applyMMR_size (queryEmbedding : Embedding)
    (candidates : list (Candidate A)) (finalK : nat) (lambda : float) :
  (forall selected,
     applyMMR svc queryEmbedding candidates finalK lambda = Ok selected ->
     (length candidates <= finalK -> selected = candidates) /\
     (finalK < length candidates ->
      1 <= length selected <= Nat.max 1 finalK /\
      (length selected < finalK ->
       exists rest,
         rest <> [] /\
         Permutation (map clearMmrScore candidates)
           (map clearMmrScore selected ++ map clearMmrScore rest) /\
         Forall (notAbove svc lambda selected) rest))) /\
  (forall D,
     cosineDefined svc ->
     sameDimension D candidates ->
     exists selected,
       applyMMR svc queryEmbedding candidates finalK lambda = Ok selected).
Proof.
  unfold applyMMR.
  destruct (length candidates <=? finalK)%nat eqn:Hleb.
  - apply Nat.leb_le in Hleb. split.
    + intros selected [= <-]. split; [reflexivity|lia].
    + intros D _ _. now exists candidates.
  - apply Nat.leb_gt in Hleb.
    assert (Hne : candidates <> []) by (intros ->; simpl in Hleb; lia).
    destruct (reduceMostRelevant_position candidates Hne) as (i & m & -> & Hnth).
    cbn [bind app length].
    pose proof (nth_error_lt _ _ _ Hnth) as Hi.
    split.
    + intros selected Hout. split; [lia|]. intros _.
      apply mmrLoop_outcome in Hout as (picks & rest & -> & Hlen & Hperm & Hstuck).
      rewrite splice1_length in Hlen, Hstuck by exact Hi.
      cbn [app length]. split; [lia|].
      intro Hfew. destruct Hstuck as [Hrest Hall]; [lia|].
      exists rest. split; [exact Hrest|]. split; [|exact Hall].
      cbn [map app]. rewrite <- Hperm.
      change (clearMmrScore m :: map clearMmrScore (splice1 i candidates))
        with (map clearMmrScore (m :: splice1 i candidates)).
      apply Permutation_map. now apply splice1_Permutation.
    + intros D Hcos Hdim.
      apply (mmrLoop_returns svc D lambda Hcos (finalK - 1) [m]
               (splice1 i candidates)).
      * constructor; [|constructor]. unfold sameDimension in Hdim.
        rewrite Forall_forall in Hdim. apply Hdim. eapply nth_error_In; eauto.
      * now apply splice1_Forall.
Qed.

End Size.

(** ** Candidates without embeddings: the order of the scores *)


Section EarliestMaximum.

Context {B : Type}.
Variable key : B -> float.










End EarliestMaximum.

Section WithoutEmbeddings.

Context {A : Type}.
Variable svc : EmbeddingService.









End WithoutEmbeddings.

(** ** reciprocalRankFusion: the scores at the top ranks *)

Section Fusion.

Context {A : Type}.
Variable getId : A -> string.



















End Fusion.

(** ** The binary64 properties at concrete inputs *)

Lemma cosineSimilarity_src_returns : cosineDefined sourceEmbeddingService.
Proof.
  intros e1 e2 Hlen. simpl. unfold cosineSimilarity_src.
  rewrite Hlen, Nat.eqb_refl. simpl.
  destruct (cosineLoop e1 e2 (0%float, 0%float, 0%float))
    as [[dotProduct norm1] norm2].
  eauto.
Qed.

Lemma opposed_sameDimension : sameDimension 2 opposed.
Proof.
  repeat constructor; intros e H; inversion H; reflexivity.
Qed.

(** C3, as stated, fails at [finalK = 0]: with three candidates the most
    relevant one is returned, not the empty list. *)
Lemma applyMMR_finalK_zero_returns_one :
  exists selected,
    applyMMR sourceEmbeddingService [1%float; 0%float] opposed 0 0.7%float
      = Ok selected /\
    map fields selected = ["a"] /\
    length selected <> Nat.min 0 (length opposed).
Proof.
  eexists. split; [vm_compute; reflexivity|]. split; [reflexivity|].
  simpl. discriminate.
Qed.

(** The loop leaves at its [break] when the scores are NaN: the cosine of
    anything with a zero vector is [0 / 0]. *)
Example applyMMR_stops_on_NaN :
  exists selected,
    applyMMR sourceEmbeddingService [1%float; 0%float] withZeroVector 2
      0.7%float = Ok selected /\
    map fields selected = ["a"] /\
    Forall (notAbove sourceEmbeddingService 0.7%float selected)
      [candidate "b" 0.8%float (Some [1%float; 0%float]);
       candidate "c" 0.7%float (Some [0%float; 1%float])].
Proof.
  eexists. split; [vm_compute; reflexivity|]. split; [reflexivity|].
  repeat constructor; eexists; (split; [vm_compute; reflexivity | reflexivity]).
Qed.

Lemma applyMMR_size_witness :
  cosineDefined sourceEmbeddingService /\
  sameDimension 2 opposed /\
  exists selected,
    applyMMR sourceEmbeddingService [1%float; 0%float] opposed 2 0.5%float
      = Ok selected /\
    1 <= length selected <= Nat.max 1 2.
Proof.
  split; [exact cosineSimilarity_src_returns|].
  split; [exact opposed_sameDimension|].
  destruct (applyMMR_size sourceEmbeddingService [1%float; 0%float] opposed 2
              0.5%float) as [Hsize Hreturns].
  destruct (Hreturns 2 cosineSimilarity_src_returns opposed_sameDimension)
    as [selected Hout].
  exists selected. split; [exact Hout|].
  apply (Hsize selected Hout). simpl. lia.
Defined.

(** C4 at candidates that point in opposite directions.  After ["a"] is
    selected, the formula of the claim, which is that of the comment on
    [applyMMR], gives ["b"], whose cosine with ["a"] is [-1], the score
    [0.5 * 0.5 - 0.5 * (-1) = 0.75] and ["c"] the score [0.3]: ["b"] is to
    be selected.  The code starts the maximum at [0], so that a negative
    cosine never enters it: it gives ["b"] the score [0.25] and selects
    ["c"]. *)
Lemma applyMMR_floors_the_penalty :
  let a := candidate "a" 0.9%float (Some [1%float; 0%float]) in
  let b := candidate "b" 0.5%float (Some [(-1)%float; 0%float]) in
  let c := candidate "c" 0.6%float (Some [0%float; 1%float]) in
  statedMmr sourceEmbeddingService 0.5%float [a] b = Ok 0.75%float /\
  statedMmr sourceEmbeddingService 0.5%float [a] c = Ok 0.3%float /\
  gt 0.75%float 0.3%float = true /\
  mmrScoreOf sourceEmbeddingService 0.5%float [a] b = Ok 0.25%float /\
  mmrScoreOf sourceEmbeddingService 0.5%float [a] c = Ok 0.3%float /\
  gt 0.25%float 0.3%float = false /\
  applyMMR sourceEmbeddingService [1%float; 0%float] [a; b; c] 2 0.5%float
  = Ok [a; withMmrScore c 0.3%float].
Proof.
  repeat split; vm_compute; reflexivity.
Qed.





End Binary64Facts.
